(** * data_processing_job: synthetic records and two grouped-average paths

    A shallow embedding of [src/jobs/data_processing_job.py].

    - Python integers are unbounded: they are [Z].
    - A row of the data frame is a record with the five columns of
      [rdd.toDF(["id", "name", "age", "salary", "department"])].
    - An RDD or a data frame read as a whole is the list of its rows; the
      keyed result of [reduceByKey] or [groupBy], which has one entry per
      key and no order, is a [gmap string _].
    - Python's true division [/] and the division that ends Spark's
      [avg] give the double nearest to their quotient; here the value is
      the exact rational ([Q]) that this last division rounds.  What
      comes before it is modelled as the code has it: the key-value path
      adds Python integers, exactly; [avg] turns every value into a
      double and adds doubles, rounding at each step ([round53]).
    - A Python exception is the [Err] branch of [result]; an SQL NULL is
      [None].
    - [random] is an explicit source of draws threaded through the
      generator. *)

From Stdlib Require Import ZArith QArith Lia.
From stdpp Require Import gmap strings list fin_maps.

Local Open Scope string_scope.
Local Open Scope list_scope.
Local Open Scope Z_scope.

(** ** Exceptions *)

Inductive exn : Type :=
  | TypeError (msg : string)
  | ValueError (msg : string)
  | IndexError (msg : string)
  | ZeroDivisionError (msg : string).

Inductive result (A : Type) : Type :=
  | Ok (a : A)
  | Err (e : exn).
Arguments Ok {A} a.
Arguments Err {A} e.

(** Exceptions propagate: the [x ← c; k] notation of stdpp's monads. *)
#[global] Instance result_ret : MRet result := λ A a, Ok a.
#[global] Instance result_bind : MBind result := λ A B k x,
  match x with
  | Ok a => k a
  | Err e => Err e
  end.

(** ** Rows *)

Module Row.
Record t : Type := mk {
  id : Z;
  name : string;
  age : Z;
  salary : Z;
  department : string
}.
End Row.

(** A row of [df_with_features]: the five columns and the two added ones. *)
Module Feat.
Record t : Type := mk {
  id : Z;
  name : string;
  age : Z;
  salary : Z;
  department : string;
  age_group : string;
  salary_category : string
}.
End Feat.

(** ** Derived labels *)

(** Line 92:
    ["Young" if row.age < 30 else "Middle" if row.age < 50 else "Senior"]. *)
Definition age_band (age : Z) : string :=
  if age <? 30 then "Young" else if age <? 50 then "Middle" else "Senior".

(** Lines 115-117:
    [when(col("age") < 30, "Young").when(col("age") < 50, "Middle")
     .otherwise("Senior")].  [when] chains take the first branch whose
    condition is true. *)
Fixpoint when_otherwise {A} (branches : list (bool * A)) (otherwise : A) : A :=
  match branches with
  | [] => otherwise
  | (c, v) :: rest => if c then v else when_otherwise rest otherwise
  end.

Definition age_group_col (age : Z) : string :=
  when_otherwise [(age <? 30, "Young"); (age <? 50, "Middle")] "Senior".

(** Lines 120-122. *)
Definition salary_category_col (salary : Z) : string :=
  when_otherwise [(salary <? 50000, "Low"); (salary <? 100000, "Medium")] "High".

(** The label sets of the two derived columns. *)
Definition age_labels : list string := ["Young"; "Middle"; "Senior"].
Definition salary_labels : list string := ["Low"; "Medium"; "High"].

(** ** The random source

    [random.randint] and [random.choice] both go through
    [Random._randbelow n], which returns an integer of [0, n) and moves
    the generator on.  The source of draws is arbitrary: draw number
    [pos] is brought into the range.  Every state of the generator of
    the [random] module is such a source, not every source is such a
    state: the statements below hold for every source, and none asks
    for a source to exist. *)

Record rng : Type := mk_rng {
  draws : nat → Z;
  pos : nat
}.

Definition gen (A : Type) : Type := rng → result (A * rng).

#[global] Instance gen_ret : MRet gen := λ A a g, Ok (a, g).
#[global] Instance gen_bind : MBind gen := λ A B k m g,
  match m g with
  | Ok (a, g') => k a g'
  | Err e => Err e
  end.

Definition randbelow (n : Z) : gen Z := λ g,
  Ok (draws g (pos g) mod n, mk_rng (draws g) (S (pos g))).

(** [random.randint(a, b)]: [a + _randbelow(b - a + 1)]. *)
Definition randint (a b : Z) : gen Z :=
  k ← randbelow (b - a + 1); mret (a + k).

(** [random.choice(seq)]: [seq[_randbelow(len(seq))]]. *)
Definition choice {A} (seq : list A) : gen A :=
  k ← randbelow (Z.of_nat (length seq));
  match seq !! Z.to_nat k return gen A with
  | Some x => mret x
  | None => λ _, Err (IndexError "list index out of range")
  end.

(** ** create_sample_data (lines 34-64) *)

Definition departments : list string :=
  ["Engineering"; "Sales"; "Marketing"; "HR"; "Finance"].
Definition names : list string :=
  ["Alice"; "Bob"; "Charlie"; "Diana"; "Eve"; "Frank"; "Grace"; "Henry"].

(** The tuple's components are evaluated left to right. *)
Definition generate_record : gen Row.t :=
  i ← randint 1 10000;
  n ← choice names;
  a ← randint 22 65;
  s ← randint 30000 150000;
  d ← choice departments;
  mret (Row.mk i n a s d).

(** What a caller can pass as [num_rows]. *)
Inductive pyval : Type :=
  | PyInt (n : Z)
  | PyFloat (q : Q)
  | PyStr (s : string)
  | PyNone.

(** [range(num_rows)]: the number of iterations, or the [TypeError] of
    a count that is not an integer.  [range(n)] is empty for [n <= 0]. *)
Definition range (num_rows : pyval) : result nat :=
  match num_rows with
  | PyInt n => Ok (Z.to_nat n)
  | PyFloat _ => Err (TypeError "'float' object cannot be interpreted as an integer")
  | PyStr _ => Err (TypeError "'str' object cannot be interpreted as an integer")
  | PyNone => Err (TypeError "'NoneType' object cannot be interpreted as an integer")
  end.

(** [[generate_record() for _ in range(n)]]. *)
Fixpoint comprehension {A} (n : nat) (body : gen A) : gen (list A) :=
  match n with
  | O => mret []
  | S n' => x ← body; xs ← comprehension n' body; mret (x :: xs)
  end.

(** [rdd.toDF(["id", "name", "age", "salary", "department"])]: only the
    column names are given, so [createDataFrame] infers the column types
    from the first row, which it takes with [RDD.first]; on an RDD
    without rows [RDD.first] raises [ValueError("RDD is empty")].  With
    a first row the data frame has the rows of the RDD. *)
Definition toDF (rdd : list Row.t) : result (list Row.t) :=
  match rdd with
  | [] => Err (ValueError "RDD is empty")
  | _ :: _ => Ok rdd
  end.

Definition create_sample_data (num_rows : pyval) : gen (list Row.t) := λ g,
  match range num_rows with
  | Err e => Err e
  | Ok n =>
      match comprehension n generate_record g with
      | Err e => Err e
      | Ok (rdd, g') =>
          match toDF rdd with
          | Err e => Err e
          | Ok df => Ok (df, g')
          end
      end
  end.

(** ** The engine's collection operations

    [filter], [map] and [mapValues] work row by row.  [reduceByKey f]
    folds the values that share a key with [f]; its result has one entry
    per key that occurs. *)

Definition rdd_filter {A} (p : A → bool) (rdd : list A) : list A :=
  List.filter p rdd.

Definition rdd_map {A B} (f : A → B) (rdd : list A) : list B := f <$> rdd.

Definition mapValues {V W} (f : V → W) (rdd : list (string * V)) : list (string * W) :=
  (λ kv, (kv.1, f kv.2)) <$> rdd.

Definition merge_value {V} (f : V → V → V) (v : V) (acc : option V) : option V :=
  Some (match acc with
        | None => v
        | Some a => f a v
        end).

Definition reduceByKey {V} (f : V → V → V) (rdd : list (string * V)) : gmap string V :=
  foldl (λ m kv, partial_alter (merge_value f kv.2) kv.1 m) ∅ rdd.

(** [mapValues] on a keyed result, with a function that can raise. *)
Definition mapValues_keyed {V W} (f : V → result W) (m : gmap string V)
    : result (gmap string W) :=
  map_fold (λ k v acc, m' ← acc; w ← f v; mret (<[k:=w]> m')) (Ok ∅) m.

(** Python's [a / b] on integers. *)
Definition truediv (a b : Z) : result Q :=
  if b =? 0 then Err (ZeroDivisionError "division by zero")
  else Ok (inject_Z a / inject_Z b)%Q.

(** ** apply_rdd_transformations (lines 66-104) *)

(** What the function logs: the data, not the formatted text. *)
Inductive log_entry : Type :=
  | LogHighSalary (n : Z)
  | LogDeptAvg (avgs : gmap string Q)
  | LogAgeStats (stats : gmap string (Q * Z)).

(** Line 83: [lambda x, y: (x[0] + y[0], x[1] + y[1])]. *)
Definition combine (x y : Z * Z) : Z * Z := (x.1 + y.1, x.2 + y.2).

(** Line 74. *)
Definition high_salary_rdd (df : list Row.t) : list Row.t :=
  rdd_filter (λ row, 50000 <? Row.salary row) df.

(** Line 78. *)
Definition dept_salary_rdd (df : list Row.t) : list (string * Z) :=
  rdd_map (λ row, (Row.department row, Row.salary row)) df.

(** Lines 82-83, before the division. *)
Definition dept_sum_count (df : list Row.t) : gmap string (Z * Z) :=
  reduceByKey combine (mapValues (λ salary, (salary, 1)) (dept_salary_rdd df)).

(** Lines 82-84. *)
Definition dept_avg_salary (df : list Row.t) : result (gmap string Q) :=
  mapValues_keyed (λ x, truediv x.1 x.2) (dept_sum_count df).

(** Lines 91-94. *)
Definition age_groups_rdd (df : list Row.t) : list (string * Z) :=
  rdd_map (λ row, (age_band (Row.age row), Row.salary row)) df.

(** Lines 96-97, before the division. *)
Definition age_sum_count (df : list Row.t) : gmap string (Z * Z) :=
  reduceByKey combine (mapValues (λ salary, (salary, 1)) (age_groups_rdd df)).

(** Lines 96-98: [(avg_salary, count)]. *)
Definition age_group_stats (df : list Row.t) : result (gmap string (Q * Z)) :=
  mapValues_keyed (λ x, q ← truediv x.1 x.2; mret (q, x.2)) (age_sum_count df).

Definition apply_rdd_transformations (df : list Row.t)
    : result (list log_entry * (gmap string Q * gmap string (Q * Z))) :=
  let n := Z.of_nat (length (high_salary_rdd df)) in
  d ← dept_avg_salary df;
  a ← age_group_stats df;
  mret ([LogHighSalary n; LogDeptAvg d; LogAgeStats a], (d, a)).

(** ** apply_dataframe_transformations (lines 106-143) *)

(** Lines 113-123: the two [withColumn] calls. *)
Definition with_features (row : Row.t) : Feat.t :=
  Feat.mk (Row.id row) (Row.name row) (Row.age row) (Row.salary row)
          (Row.department row)
          (age_group_col (Row.age row))
          (salary_category_col (Row.salary row)).

(** [groupBy(col)]: the rows of each value of the column that occurs. *)
Definition groupBy (key : Feat.t → string) (df : list Feat.t) : gmap string (list Feat.t) :=
  foldr (λ row m, partial_alter (λ g, Some (row :: default [] g)) (key row) m) ∅ df.

Definition sum_Z (l : list Z) : Z := foldr Z.add 0 l.

(** [count("*")]. *)
Definition sql_count (rows : list Feat.t) : Z := Z.of_nat (length rows).

(** The double nearest to an integer, ties to even: 53 significant
    bits, the rest rounded away.  The exponent range is left out: the
    integers of a data frame have 64 bits, and their sums stay far below
    the largest double. *)
Definition round53 (z : Z) : Z :=
  let a := Z.abs z in
  let e := Z.log2 a - 52 in
  if e <=? 0 then z
  else
    let q := a / 2 ^ e in
    let r := a mod 2 ^ e in
    let half := 2 ^ (e - 1) in
    let m := if r <? half then q
             else if half <? r then q + 1
             else if Z.even q then q else q + 1 in
    Z.sgn z * (m * 2 ^ e).

(** The sum that [avg] keeps: it starts at [0.0] and adds to it, row
    after row, the value cast to a double.  All these doubles are whole
    numbers.  This is the execution with the rows in one partition;
    [double_sum_plan] below has the others, which give the same sum
    wherever no addition rounds. *)
Definition double_sum (l : list Z) : Z :=
  foldl (λ acc x, round53 (acc + round53 x)) 0 l.

(** [avg(col)]: the sum of the doubles over the count cast to a double,
    NULL over no rows. *)
Definition sql_avg (col : Feat.t → Z) (rows : list Feat.t) : option Q :=
  match rows with
  | [] => None
  | _ :: _ =>
      Some (inject_Z (double_sum (col <$> rows)) / inject_Z (round53 (sql_count rows)))%Q
  end.

Module DeptStats.
Record t : Type := mk {
  employee_count : Z;
  avg_salary : option Q;
  avg_age : option Q
}.
End DeptStats.

Module AgeStats.
Record t : Type := mk {
  count : Z;
  avg_salary : option Q
}.
End AgeStats.

Definition df_with_features (df : list Row.t) : list Feat.t := with_features <$> df.

(** Lines 126-130. *)
Definition dept_stats (df : list Row.t) : gmap string DeptStats.t :=
  (λ rows, DeptStats.mk (sql_count rows) (sql_avg Feat.salary rows) (sql_avg Feat.age rows))
    <$> groupBy Feat.department (df_with_features df).

(** Lines 132-135. *)
Definition age_stats (df : list Row.t) : gmap string AgeStats.t :=
  (λ rows, AgeStats.mk (sql_count rows) (sql_avg Feat.salary rows))
    <$> groupBy Feat.age_group (df_with_features df).

Definition apply_dataframe_transformations (df : list Row.t)
    : list Feat.t * gmap string DeptStats.t * gmap string AgeStats.t :=
  (df_with_features df, dept_stats df, age_stats df).

(** ** save_results (lines 145-166) and main (lines 168-202) *)

Inductive table : Type :=
  | ProcessedData (rows : list Feat.t)
  | DepartmentStats (stats : gmap string DeptStats.t)
  | AgeGroupStats (stats : gmap string AgeStats.t).

Definition output_dir : string := "/opt/ml/code/data/output".
Definition path_join (dir file : string) : string := dir +:+ "/" +:+ file.

(** [write.mode("overwrite").parquet(path)] replaces what the path held. *)
Definition save_results (fs : gmap string table) (df_processed : list Feat.t)
    (dstats : gmap string DeptStats.t) (astats : gmap string AgeStats.t)
    : gmap string table :=
  let fs1 := <[path_join output_dir "processed_data.parquet" := ProcessedData df_processed]> fs in
  let fs2 := <[path_join output_dir "department_stats.parquet" := DepartmentStats dstats]> fs1 in
  <[path_join output_dir "age_stats.parquet" := AgeGroupStats astats]> fs2.

(** Lines 181-188: the stages after the data set is made. *)
Definition run_stages (df : list Row.t) (fs : gmap string table)
    : result (list log_entry * (gmap string Q * gmap string (Q * Z)) * gmap string table) :=
  '(log, kv) ← apply_rdd_transformations df;
  let '(df_processed, dstats, astats) := apply_dataframe_transformations df in
  mret (log, kv, save_results fs df_processed dstats astats).

(** Lines 178-188 with an engine whose calls do not raise: the session,
    the log and the calls that can raise are in [main_io] below. *)
Definition main (g : rng) (fs : gmap string table) : result (gmap string table) :=
  match create_sample_data (PyInt 1000) g with
  | Err e => Err e
  | Ok (df, _) => '(_, _, fs') ← run_stages df fs; mret fs'
  end.

(** ** Bounds, counts and a sample source *)

(** The bounds and domains of lines 42-51. *)
Definition in_bounds (r : Row.t) : Prop :=
  1 <= Row.id r <= 10000
  ∧ 22 <= Row.age r <= 65
  ∧ 30000 <= Row.salary r <= 150000
  ∧ Row.name r ∈ names
  ∧ Row.department r ∈ departments.

(** A row count that is not a positive integer. *)
Definition invalid_count (v : pyval) : Prop :=
  match v with
  | PyInt n => n <= 0
  | _ => True
  end.

(** A sample random source. *)
Definition rng0 : rng := mk_rng (λ i, 7919 * Z.of_nat i + 12345) 0.

(** ** Groups

    The rows of one key, in input order, and the sum and count of their
    salaries: what both aggregation paths are compared with. *)

Definition group_rows (key : Row.t → string) (k : string) (df : list Row.t) : list Row.t :=
  filter (λ row, key row = k) df.

Definition group_sum_count (g : list Row.t) : option (Z * Z) :=
  match g with
  | [] => None
  | _ :: _ => Some (sum_Z (Row.salary <$> g), Z.of_nat (length g))
  end.

(** The key-value reduction of lines 82-83 and 96-97 for any key. *)
Definition kv_pairs (key : Row.t → string) (df : list Row.t) : list (string * (Z * Z)) :=
  mapValues (λ salary, (salary, 1)) (rdd_map (λ row, (key row, Row.salary row)) df).

Definition band_of (row : Row.t) : string := age_band (Row.age row).

(** ** Executions of reduceByKey

    The engine splits the pairs into partitions, folds each partition on
    its own and merges the partial results two by two, in an order of its
    choosing: a tree with a partition at every leaf. *)

Inductive plan (A : Type) : Type :=
  | Partition (rows : list A)
  | Merge (l r : plan A).
Arguments Partition {A} rows.
Arguments Merge {A} l r.

Fixpoint plan_rows {A} (p : plan A) : list A :=
  match p with
  | Partition rows => rows
  | Merge l r => plan_rows l ++ plan_rows r
  end.

Fixpoint reduce_plan {V} (f : V → V → V) (p : plan (string * V)) : gmap string V :=
  match p with
  | Partition rows => reduceByKey f rows
  | Merge l r => union_with (λ a b, Some (f a b)) (reduce_plan f l) (reduce_plan f r)
  end.

(** ** Auxiliary notions of the proofs *)

(** The values an RDD of pairs holds for a key, in order. *)
Definition values_of {V} (k : string) (rdd : list (string * V)) : list V :=
  (filter (λ kv, kv.1 = k) rdd).*2.

(** Componentwise sums of a non-empty list of pairs. *)
Definition pair_sum (vs : list (Z * Z)) : option (Z * Z) :=
  match vs with
  | [] => None
  | _ :: _ => Some (sum_Z vs.*1, sum_Z vs.*2)
  end.

(** A group that has rows. *)
Definition nonempty {A} (l : list A) : option (list A) :=
  match l with
  | [] => None
  | _ :: _ => Some l
  end.

(** The quotient line 84 and line 98 take of a [(sum, count)] pair. *)
Definition avg_of (x : Z * Z) : Q := (inject_Z x.1 / inject_Z x.2)%Q.

(** The sum of the counts of a keyed result. *)
Definition total_count {V} (cnt : V → Z) (m : gmap string V) : Z :=
  map_fold (λ _ v acc, cnt v + acc) 0 m.

(** The number of rows of a key; no number for a key without rows. *)
Definition group_size {A} (key : A → string) (k : string) (rows : list A) : option Z :=
  (λ g, Z.of_nat (length g)) <$> nonempty (filter (λ row, key row = k) rows).

(** The sum of the absolute values of a column: a bound on every sum of
    some of its values. *)
Definition abs_total (col : Row.t → Z) (df : list Row.t) : Z :=
  sum_Z ((λ row, Z.abs (col row)) <$> df).

(** Two salaries of one department that [avg] cannot add exactly. *)
Definition large_df : list Row.t :=
  [Row.mk 1 "Alice" 30 (2 ^ 53 + 1) "Engineering";
   Row.mk 2 "Bob" 30 (- 2 ^ 53) "Engineering"].

(** ** The example scenario *)

Definition example_df : list Row.t :=
  [Row.mk 1 "A" 25 40000 "Eng"; Row.mk 2 "B" 35 60000 "Eng";
   Row.mk 3 "C" 28 80000 "Sales"].

(** An entry that is present and equal, as a number, to [v]. *)
Definition avg_is (o : option Q) (v : Q) : Prop :=
  ∃ q, o = Some q ∧ (q == v)%Q.

(** One execution over the example's department pairs: the third pair and
    the first in one partition, the second in another. *)
Definition example_plan : plan (string * (Z * Z)) :=
  Merge (Partition [("Sales", (80000, 1)); ("Eng", (40000, 1))])
        (Partition [("Eng", (60000, 1))]).

(** ** The frame of the feature columns *)

(** The five columns a row of [df_with_features] shares with the input. *)
Definition original_columns (row : Feat.t) : Row.t :=
  Row.mk (Feat.id row) (Feat.name row) (Feat.age row) (Feat.salary row)
         (Feat.department row).

(** ** The job without its filter stage

    [apply_rdd_transformations] with the lines 74-75 taken out, and the
    stages of [main] run with it: what the job is compared with. *)

Definition apply_rdd_transformations_no_filter (df : list Row.t)
    : result (list log_entry * (gmap string Q * gmap string (Q * Z))) :=
  d ← dept_avg_salary df;
  a ← age_group_stats df;
  mret ([LogDeptAvg d; LogAgeStats a], (d, a)).

Definition run_stages_no_filter (df : list Row.t) (fs : gmap string table)
    : result (list log_entry * (gmap string Q * gmap string (Q * Z)) * gmap string table) :=
  '(log, kv) ← apply_rdd_transformations_no_filter df;
  let '(df_processed, dstats, astats) := apply_dataframe_transformations df in
  mret (log, kv, save_results fs df_processed dstats astats).

(** ** The draws of one record

    The five draws [generate_record] takes from position [p] of a stream,
    brought into range. *)

Definition id_of_draw (z : Z) : Z := 1 + z mod (10000 - 1 + 1).
Definition age_of_draw (z : Z) : Z := 22 + z mod (65 - 22 + 1).
Definition salary_of_draw (z : Z) : Z := 30000 + z mod (150000 - 30000 + 1).
Definition index_of_draw {A} (seq : list A) (z : Z) : nat :=
  Z.to_nat (z mod Z.of_nat (length seq)).

(** Two sources that give the same [n] draws from their positions on. *)
Definition same_draws (n : nat) (g g' : rng) : Prop :=
  ∀ i, (i < n)%nat → draws g (pos g + i)%nat = draws g' (pos g' + i)%nat.

(** The sample source read seven positions later. *)
Definition rng1 : rng := mk_rng (λ i, 7919 * Z.of_nat (i - 7) + 12345) 7.

(** ** Executions of avg

    The engine adds the doubles of each partition on its own, from zero,
    and then adds the partial sums two by two, in an order of its
    choosing; [double_sum] is the execution with one partition. *)
Fixpoint double_sum_plan (p : plan Z) : Z :=
  match p with
  | Partition rows => double_sum rows
  | Merge l r => round53 (double_sum_plan l + double_sum_plan r)
  end.

(** The largest row count for which generated salaries cannot add up to
    more than [2^53]. *)
Definition exact_rows : Z := 2 ^ 53 / 150000.

(** Two records within the bounds of the generator. *)
Definition bounded_df : list Row.t :=
  [Row.mk 1 "Alice" 22 30000 "Engineering"; Row.mk 10000 "Henry" 65 150000 "Finance"].

(** ** The job with its engine

    [main], [create_spark_session] and [save_results] with what the pure
    model above leaves out: the session, the log, and the engine calls
    that can raise.  Which calls raise, and what a failed write leaves
    at its path, is the engine's choice.  The trace holds the log lines
    of [main] and of [save_results], the data that
    [apply_rdd_transformations] logs and the rows that [main] shows; the
    lines of [create_sample_data] and the tables that
    [apply_dataframe_transformations] shows are not recorded. *)

Record engine : Type := mk_engine {
  getOrCreate_error : option exn;
  conf_set_error : option exn;
  makedirs_error : option exn;
  write_error : string → option (exn * option table)
}.

Inductive event : Type :=
  | Info (msg : string)
  | Error (e : exn)
  | Stage (entry : log_entry)
  | Shown (rows : list Feat.t).

(** The configuration of the active session if there is one, the files
    of the sink, and what was logged, oldest first. *)
Record world : Type := mk_world {
  session : option (gmap string string);
  sink : gmap string table;
  trace : list event
}.

Definition emit (ev : event) (w : world) : world :=
  mk_world (session w) (sink w) (trace w ++ [ev]).

(** Lines 22-27: the options of the builder. *)
Definition builder_conf : gmap string string :=
  <["spark.sql.parquet.compression.codec" := "snappy"]>
    (<["spark.sql.adaptive.coalescePartitions.enabled" := "true"]>
       (<["spark.sql.adaptive.enabled" := "true"]>
          (<["spark.app.name" := "SimplePySparkJob"]> ∅))).

(** Lines 20-32.  [getOrCreate] returns the existing session, with the
    builder's options put on it, or a new one with these options;
    [spark.conf.set] then sets one more option. *)
Definition create_spark_session (e : engine) (w : world) : world * result unit :=
  match getOrCreate_error e with
  | Some ex => (w, Err ex)
  | None =>
      let conf := builder_conf ∪ default ∅ (session w) in
      match conf_set_error e with
      | Some ex => (mk_world (Some conf) (sink w) (trace w), Err ex)
      | None =>
          (mk_world (Some (<["spark.sql.parquet.mergeSchema" := "false"]> conf))
                    (sink w) (trace w), Ok tt)
      end
  end.

(** [spark.stop()]. *)
Definition stop (w : world) : world := mk_world None (sink w) (trace w).

(** [df.write.mode("overwrite").parquet(path)]. *)
Definition write_parquet (e : engine) (path : string) (t : table) (w : world)
    : world * result unit :=
  match write_error e path with
  | Some (ex, remains) =>
      (mk_world (session w) (partial_alter (λ _, remains) path (sink w)) (trace w), Err ex)
  | None => (mk_world (session w) (<[path := t]> (sink w)) (trace w), Ok tt)
  end.

Definition processed_path : string := path_join output_dir "processed_data.parquet".
Definition dept_stats_path : string := path_join output_dir "department_stats.parquet".
Definition age_stats_path : string := path_join output_dir "age_stats.parquet".

(** Lines 145-166, with [os.makedirs] and the three log lines. *)
Definition save_results_io (e : engine) (df_processed : list Feat.t)
    (dstats : gmap string DeptStats.t) (astats : gmap string AgeStats.t) (w : world)
    : world * result unit :=
  match makedirs_error e with
  | Some ex => (w, Err ex)
  | None =>
      match write_parquet e processed_path (ProcessedData df_processed) w with
      | (w1, Err ex) => (w1, Err ex)
      | (w1, Ok _) =>
          let w1 := emit (Info ("Saved processed data to: " +:+ processed_path)) w1 in
          match write_parquet e dept_stats_path (DepartmentStats dstats) w1 with
          | (w2, Err ex) => (w2, Err ex)
          | (w2, Ok _) =>
              let w2 := emit (Info ("Saved department stats to: " +:+ dept_stats_path)) w2 in
              match write_parquet e age_stats_path (AgeGroupStats astats) w2 with
              | (w3, Err ex) => (w3, Err ex)
              | (w3, Ok _) =>
                  (emit (Info ("Saved age stats to: " +:+ age_stats_path)) w3, Ok tt)
              end
          end
      end
  end.

(** Lines 173-194, the body of the [try]: the world it leaves, whether
    [spark] got bound, and how it ended. *)
Definition job_body (e : engine) (g : rng) (w : world) : world * bool * result unit :=
  match create_spark_session e w with
  | (w1, Err ex) => (w1, false, Err ex)
  | (w1, Ok _) =>
      let w2 := emit (Info "Spark session created successfully") w1 in
      match create_sample_data (PyInt 1000) g with
      | Err ex => (w2, true, Err ex)
      | Ok (df, _) =>
          match apply_rdd_transformations df with
          | Err ex => (w2, true, Err ex)
          | Ok (log, _) =>
              let w3 := foldl (λ w entry, emit (Stage entry) w) w2 log in
              let '(df_processed, dstats, astats) := apply_dataframe_transformations df in
              match save_results_io e df_processed dstats astats w3 with
              | (w4, Err ex) => (w4, true, Err ex)
              | (w4, Ok _) =>
                  let w5 := emit (Info "PySpark job completed successfully!") w4 in
                  let w6 := emit (Info "Sample of processed data:") w5 in
                  (emit (Shown (take 5 df_processed)) w6, true, Ok tt)
              end
          end
      end
  end.

(** Lines 168-202: [try], [except Exception] that logs and raises again,
    and [finally] that stops the session if [spark] is bound. *)
Definition main_io (e : engine) (g : rng) (w : world) : world * result unit :=
  let w0 := emit (Info "Starting Simple PySpark Job...") w in
  let '(w1, bound, r) := job_body e g w0 in
  let w2 := match r with
            | Err ex => emit (Error ex) w1
            | Ok _ => w1
            end in
  let w3 := if bound : bool then emit (Info "Spark session stopped") (stop w2) else w2 in
  (w3, r).

(** The exceptions a trace logs, oldest first. *)
Definition logged_errors (t : list event) : list exn :=
  omap (λ ev, match ev with
              | Error ex => Some ex
              | _ => None
              end) t.

(** An engine none of whose calls raises. *)
Definition no_fault : engine := mk_engine None None None (λ _, None).

Definition engine_ok (e : engine) : Prop :=
  getOrCreate_error e = None ∧ conf_set_error e = None ∧ makedirs_error e = None
  ∧ write_error e processed_path = None ∧ write_error e dept_stats_path = None
  ∧ write_error e age_stats_path = None.

(** A world with no session, an empty sink and nothing logged. *)
Definition world0 : world := mk_world None ∅ [].

(** Whether the three writes and the directory creation all succeed. *)
Definition sink_ok (e : engine) : Prop :=
  makedirs_error e = None ∧ write_error e processed_path = None
  ∧ write_error e dept_stats_path = None ∧ write_error e age_stats_path = None.

(** ** The labels partition their domain *)

Lemma age_band_cases (a : Z) :
  (a < 30 ∧ age_band a = "Young")
  ∨ (30 <= a < 50 ∧ age_band a = "Middle")
  ∨ (50 <= a ∧ age_band a = "Senior").
Proof.
  unfold age_band.
  destruct (Z.ltb_spec a 30); [left; done|].
  destruct (Z.ltb_spec a 50); [right; left; done|right; right; done].
Qed.

Lemma age_group_col_band (a : Z) : age_group_col a = age_band a.
Proof. reflexivity. Qed.

Lemma salary_category_cases (s : Z) :
  (s < 50000 ∧ salary_category_col s = "Low")
  ∨ (50000 <= s < 100000 ∧ salary_category_col s = "Medium")
  ∨ (100000 <= s ∧ salary_category_col s = "High").
Proof.
  unfold salary_category_col; simpl.
  destruct (Z.ltb_spec s 50000); [left; done|].
  destruct (Z.ltb_spec s 100000); [right; left; done|right; right; done].
Qed.

(** C3.  Both labelings are functions of the integer alone (the key-value
    path and the tabular path compute the same age band), every integer
    gets exactly one label of the three, the three labels are pairwise
    different, and the label is the one the thresholds name: below 30,
    below 50, else; below 50000, below 100000, else. *)
Theorem labels_partition :
  (∀ a : Z,
      age_group_col a = age_band a
      ∧ (exists ! l, l ∈ age_labels ∧ age_band a = l)
      ∧ (age_band a = "Young" ↔ a < 30)
      ∧ (age_band a = "Middle" ↔ 30 <= a < 50)
      ∧ (age_band a = "Senior" ↔ 50 <= a))
  ∧ (∀ s : Z,
      (exists ! l, l ∈ salary_labels ∧ salary_category_col s = l)
      ∧ (salary_category_col s = "Low" ↔ s < 50000)
      ∧ (salary_category_col s = "Medium" ↔ 50000 <= s < 100000)
      ∧ (salary_category_col s = "High" ↔ 100000 <= s))
  ∧ NoDup age_labels ∧ NoDup salary_labels.
Proof.
  split; [|split; [|split]].
  - intros a. split; [reflexivity|]. split.
    + exists (age_band a). split.
      * split; [|done]. unfold age_labels.
        destruct (age_band_cases a) as [[_ ->]|[[_ ->]|[_ ->]]];
          set_solver.
      * by intros l [_ <-].
    + destruct (age_band_cases a) as [[H E]|[[H E]|[H E]]]; rewrite E;
        repeat split; intros; try discriminate; try lia; done.
  - intros s. split.
    + exists (salary_category_col s). split.
      * split; [|done]. unfold salary_labels.
        destruct (salary_category_cases s) as [[_ ->]|[[_ ->]|[_ ->]]];
          set_solver.
      * by intros l [_ <-].
    + destruct (salary_category_cases s) as [[H E]|[[H E]|[H E]]]; rewrite E;
        repeat split; intros; try discriminate; try lia; done.
  - by apply (bool_decide_unpack _).
  - by apply (bool_decide_unpack _).
Qed.

(** ** The generator's records *)

Lemma randint_spec (a b : Z) (g : rng) :
  a <= b →
  ∃ k g', randint a b g = Ok (k, g') ∧ a <= k <= b.
Proof.
  intros Hab. eexists _, _. split; [reflexivity|].
  pose proof (Z.mod_pos_bound (draws g (pos g)) (b - a + 1)). lia.
Qed.

Lemma choice_spec {A} (seq : list A) (g : rng) :
  seq ≠ [] →
  ∃ x g', choice seq g = Ok (x, g') ∧ x ∈ seq.
Proof.
  intros Hne.
  assert (0 < Z.of_nat (length seq)) as Hlen by (destruct seq; simpl; [done|lia]).
  pose proof (Z.mod_pos_bound (draws g (pos g)) _ Hlen) as Hk.
  destruct (lookup_lt_is_Some_2 seq
              (Z.to_nat (draws g (pos g) mod Z.of_nat (length seq))))
    as [x Hx]; [lia|].
  exists x, (mk_rng (draws g) (S (pos g))).
  split; [|by eapply list_elem_of_lookup_2].
  unfold choice, mbind, gen_bind, randbelow. by rewrite Hx.
Qed.

Lemma generate_record_spec (g : rng) :
  ∃ r g', generate_record g = Ok (r, g') ∧ in_bounds r.
Proof.
  unfold generate_record, mbind, gen_bind.
  destruct (randint_spec 1 10000 g) as (i & g1 & -> & Hi); [lia|].
  destruct (choice_spec names g1) as (n & g2 & -> & Hn); [done|].
  destruct (randint_spec 22 65 g2) as (a & g3 & -> & Ha); [lia|].
  destruct (randint_spec 30000 150000 g3) as (s & g4 & -> & Hs); [lia|].
  destruct (choice_spec departments g4) as (d & g5 & -> & Hd); [done|].
  eexists _, _. split; [reflexivity|]. unfold in_bounds; simpl. tauto.
Qed.

Lemma comprehension_spec (n : nat) (g : rng) :
  ∃ l g', comprehension n generate_record g = Ok (l, g')
          ∧ length l = n ∧ Forall in_bounds l.
Proof.
  revert g. induction n as [|n IH]; intros g.
  - by exists [], g.
  - destruct (generate_record_spec g) as (r & g1 & Hr & Hb).
    destruct (IH g1) as (l & g2 & Hl & Hlen & Hall).
    exists (r :: l), g2. simpl. unfold mbind, gen_bind.
    rewrite Hr, Hl. split; [done|]. split; [by rewrite <- Hlen|by constructor].
Qed.

(** C2.  For every row count [N >= 1] and every state of the random
    source, the generator returns a data set of exactly [N] records, each
    with id in [1,10000], age in [22,65], salary in [30000,150000], a name
    of the 8 names and a department of the 5 departments. *)
Theorem create_sample_data_records (N : Z) (g : rng) :
  1 <= N →
  ∃ df g', create_sample_data (PyInt N) g = Ok (df, g')
           ∧ Z.of_nat (length df) = N
           ∧ Forall in_bounds df
           ∧ length names = 8%nat ∧ NoDup names
           ∧ length departments = 5%nat ∧ NoDup departments.
Proof.
  intros HN. unfold create_sample_data. simpl range.
  destruct (comprehension_spec (Z.to_nat N) g) as (l & g' & -> & Hlen & Hall).
  destruct l as [|r l]; [simpl in Hlen; lia|].
  exists (r :: l), g'. simpl toDF. split; [done|]. split; [lia|].
  split; [done|]. repeat split; by apply (bool_decide_unpack _).
Qed.


Lemma create_sample_data_records_witness :
  ∃ df g', create_sample_data (PyInt 3) rng0 = Ok (df, g')
           ∧ Z.of_nat (length df) = 3
           ∧ Forall in_bounds df
           ∧ length names = 8%nat ∧ NoDup names
           ∧ length departments = 5%nat ∧ NoDup departments.
Proof. apply (create_sample_data_records 3 rng0). lia. Defined.

(** ** Row counts that are not positive integers *)

(** C6.  For every invalid row count (zero, negative, or not an integer)
    and every state of the random source, the generator raises and
    returns no data set.  A count that is not an integer is refused by
    [range] with a [TypeError].  For an integer that is zero or negative
    the comprehension makes no record and uses no draw, and building the
    data frame from no rows raises the [ValueError] of [toDF]. *)
Theorem create_sample_data_invalid (v : pyval) (g : rng) :
  invalid_count v →
  (∃ e, create_sample_data v g = Err e)
  ∧ match v with
    | PyInt n =>
        comprehension (Z.to_nat n) generate_record g = Ok ([], g)
        ∧ create_sample_data v g = Err (ValueError "RDD is empty")
    | _ =>
        ∃ msg, range v = Err (TypeError msg)
               ∧ create_sample_data v g = Err (TypeError msg)
    end.
Proof.
  intros Hv. destruct v as [n|q|s|]; simpl in Hv.
  - unfold create_sample_data. simpl range.
    replace (Z.to_nat n) with O by lia.
    split; [by eexists|]. by split.
  - split; [by eexists|]. by eexists.
  - split; [by eexists|]. by eexists.
  - split; [by eexists|]. by eexists.
Qed.

Lemma create_sample_data_invalid_witness :
  (∃ e, create_sample_data (PyInt 0) rng0 = Err e)
  ∧ comprehension (Z.to_nat 0) generate_record rng0 = Ok ([], rng0)
  ∧ create_sample_data (PyInt 0) rng0 = Err (ValueError "RDD is empty").
Proof. apply (create_sample_data_invalid (PyInt 0) rng0). simpl. lia. Defined.

(** ** The key-value reduction, key by key *)


Lemma values_of_cons {V} (k : string) (kv : string * V) (rdd : list (string * V)) :
  values_of k (kv :: rdd) = if decide (kv.1 = k) then kv.2 :: values_of k rdd
                            else values_of k rdd.
Proof. unfold values_of. rewrite filter_cons. by case_decide. Qed.

Lemma values_of_app {V} (k : string) (l1 l2 : list (string * V)) :
  values_of k (l1 ++ l2) = values_of k l1 ++ values_of k l2.
Proof. unfold values_of. by rewrite filter_app, fmap_app. Qed.

Lemma values_of_perm {V} (k : string) (l1 l2 : list (string * V)) :
  l1 ≡ₚ l2 → values_of k l1 ≡ₚ values_of k l2.
Proof. intros H. unfold values_of. by rewrite H. Qed.

(** Folding a list into the map changes the entry of [k] by the values
    of [k] alone. *)
Lemma reduce_fold_lookup {V} (f : V → V → V) (rdd : list (string * V))
    (m : gmap string V) (k : string) :
  foldl (λ m kv, partial_alter (merge_value f kv.2) kv.1 m) m rdd !! k
  = foldl (λ acc v, merge_value f v acc) (m !! k) (values_of k rdd).
Proof.
  revert m. induction rdd as [|kv rdd IH]; intros m; [done|].
  simpl. rewrite IH, values_of_cons, lookup_partial_alter.
  case_decide as Hk; [by subst|done].
Qed.

Lemma reduceByKey_lookup {V} (f : V → V → V) (rdd : list (string * V)) (k : string) :
  reduceByKey f rdd !! k = foldl (λ acc v, merge_value f v acc) None (values_of k rdd).
Proof. unfold reduceByKey. by rewrite reduce_fold_lookup, lookup_empty. Qed.

Lemma sum_Z_nil : sum_Z [] = 0.
Proof. reflexivity. Qed.

Lemma sum_Z_cons (x : Z) (l : list Z) : sum_Z (x :: l) = x + sum_Z l.
Proof. reflexivity. Qed.

(** With the pairwise addition of line 83 the fold is the pair of sums. *)
Lemma combine_fold_Some (vs : list (Z * Z)) (a : Z * Z) :
  foldl (λ acc v, merge_value combine v acc) (Some a) vs
  = Some (a.1 + sum_Z vs.*1, a.2 + sum_Z vs.*2).
Proof.
  revert a. induction vs as [|v vs IH]; intros [s c].
  - cbn [foldl fmap list_fmap]. rewrite sum_Z_nil.
    f_equal. apply injective_projections; simpl; lia.
  - rewrite !fmap_cons, !sum_Z_cons. cbn [foldl].
    unfold merge_value at 2. rewrite IH. unfold combine.
    f_equal. apply injective_projections; simpl; lia.
Qed.

Lemma combine_fold_None (vs : list (Z * Z)) :
  foldl (λ acc v, merge_value combine v acc) None vs = pair_sum vs.
Proof.
  destruct vs as [|[s c] vs]; [done|]. simpl.
  unfold merge_value at 2. by rewrite combine_fold_Some.
Qed.

Lemma reduceByKey_combine_lookup (rdd : list (string * (Z * Z))) (k : string) :
  reduceByKey combine rdd !! k = pair_sum (values_of k rdd).
Proof. by rewrite reduceByKey_lookup, combine_fold_None. Qed.

Lemma sum_Z_app (l1 l2 : list Z) : sum_Z (l1 ++ l2) = sum_Z l1 + sum_Z l2.
Proof.
  induction l1 as [|x l1 IH]; [by rewrite sum_Z_nil|].
  rewrite <- app_comm_cons, !sum_Z_cons. lia.
Qed.

Lemma sum_Z_perm (l1 l2 : list Z) : l1 ≡ₚ l2 → sum_Z l1 = sum_Z l2.
Proof.
  induction 1 as [|x l1 l2 _ IH|x y l|l1 l2 l3 _ IH1 _ IH2];
    rewrite ?sum_Z_cons; lia.
Qed.

Lemma pair_sum_app (l1 l2 : list (Z * Z)) :
  pair_sum (l1 ++ l2)
  = union_with (λ a b, Some (combine a b)) (pair_sum l1) (pair_sum l2).
Proof.
  destruct l1 as [|v1 l1]; [by destruct l2|].
  destruct l2 as [|v2 l2].
  - by rewrite app_nil_r.
  - change ((v1 :: l1) ++ v2 :: l2) with (v1 :: (l1 ++ v2 :: l2)).
    unfold pair_sum at 1. cbn [pair_sum union_with option_union_with].
    f_equal. unfold combine. cbn [fst snd].
    change (v1 :: l1 ++ v2 :: l2) with ((v1 :: l1) ++ (v2 :: l2)).
    by rewrite !fmap_app, !sum_Z_app.
Qed.

Lemma pair_sum_perm (l1 l2 : list (Z * Z)) : l1 ≡ₚ l2 → pair_sum l1 = pair_sum l2.
Proof.
  intros H. destruct l1 as [|v1 l1], l2 as [|v2 l2]; try done.
  - by apply Permutation_nil_cons in H.
  - symmetry in H. by apply Permutation_nil_cons in H.
  - unfold pair_sum. f_equal. f_equal; apply sum_Z_perm; by rewrite H.
Qed.

(** The pairs of a key are the [(salary, 1)] of the key's rows. *)
Lemma values_of_kv_pairs (key : Row.t → string) (df : list Row.t) (k : string) :
  values_of k (kv_pairs key df) = (λ row, (Row.salary row, 1)) <$> group_rows key k df.
Proof.
  unfold kv_pairs, mapValues, rdd_map, group_rows.
  induction df as [|r df IH]; [done|].
  rewrite !fmap_cons, values_of_cons, filter_cons. simpl.
  case_decide; [rewrite fmap_cons|]; by rewrite IH.
Qed.

Lemma sum_Z_ones {A} (l : list A) : sum_Z ((λ _, 1) <$> l) = Z.of_nat (length l).
Proof.
  induction l as [|x l IH]; [done|].
  rewrite fmap_cons, sum_Z_cons, IH. simpl length. lia.
Qed.

Lemma pair_sum_group (g : list Row.t) :
  pair_sum ((λ row, (Row.salary row, 1)) <$> g) = group_sum_count g.
Proof.
  destruct g as [|r g]; [done|].
  set (f := λ row, (Row.salary row, 1)).
  change (pair_sum (f <$> r :: g))
    with (Some (sum_Z (f <$> r :: g).*1, sum_Z (f <$> r :: g).*2)).
  rewrite <- !list_fmap_compose.
  change (snd ∘ f) with (λ _ : Row.t, 1). by rewrite sum_Z_ones.
Qed.

Lemma kv_reduce_lookup (key : Row.t → string) (df : list Row.t) (k : string) :
  reduceByKey combine (kv_pairs key df) !! k = group_sum_count (group_rows key k df).
Proof. by rewrite reduceByKey_combine_lookup, values_of_kv_pairs, pair_sum_group. Qed.

Lemma dept_sum_count_lookup (df : list Row.t) (k : string) :
  dept_sum_count df !! k = group_sum_count (group_rows Row.department k df).
Proof. apply (kv_reduce_lookup Row.department). Qed.

Lemma age_sum_count_lookup (df : list Row.t) (k : string) :
  age_sum_count df !! k = group_sum_count (group_rows band_of k df).
Proof. apply (kv_reduce_lookup band_of). Qed.

(** ** Sums of doubles *)

Lemma round53_exact (z : Z) : Z.abs z <= 2 ^ 53 → round53 z = z.
Proof.
  intros Hz. unfold round53. cbv zeta.
  destruct (Z.leb_spec (Z.log2 (Z.abs z) - 52) 0) as [|He]; [done|].
  assert (0 < Z.abs z) as Hpos.
  { destruct (Z.eq_dec (Z.abs z) 0) as [E|]; [|lia].
    rewrite E in He. simpl in He. lia. }
  assert (2 ^ 53 <= Z.abs z) as Hge by (apply Z.log2_le_pow2; lia).
  assert (Z.abs z = 2 ^ 53) as Ha by lia.
  destruct (Z.abs_eq_or_opp z) as [E|E]; rewrite E in Ha.
  - subst z. reflexivity.
  - assert (z = - 2 ^ 53) as -> by lia. reflexivity.
Qed.

Lemma double_sum_from (l : list Z) (acc : Z) :
  Z.abs acc + sum_Z (Z.abs <$> l) <= 2 ^ 53 →
  foldl (λ acc x, round53 (acc + round53 x)) acc l = acc + sum_Z l.
Proof.
  revert acc. induction l as [|x l IH]; intros acc H.
  - rewrite sum_Z_nil. simpl. lia.
  - rewrite fmap_cons, sum_Z_cons in H. rewrite sum_Z_cons. cbn [foldl].
    assert (0 <= sum_Z (Z.abs <$> l)) as Hnn.
    { clear. induction l as [|y l IH]; [done|].
      rewrite fmap_cons, sum_Z_cons. lia. }
    rewrite (round53_exact x) by lia.
    rewrite (round53_exact (acc + x)) by lia.
    rewrite IH by lia. lia.
Qed.

Lemma double_sum_exact (l : list Z) :
  sum_Z (Z.abs <$> l) <= 2 ^ 53 → double_sum l = sum_Z l.
Proof. intros H. unfold double_sum. rewrite double_sum_from; simpl; lia. Qed.

Lemma abs_total_filter (col : Row.t → Z) (P : Row.t → Prop) `{!∀ x, Decision (P x)}
    (df : list Row.t) :
  abs_total col (filter P df) <= abs_total col df.
Proof.
  unfold abs_total. induction df as [|r df IH]; [done|].
  rewrite filter_cons, fmap_cons, sum_Z_cons.
  case_decide; [rewrite fmap_cons, sum_Z_cons|]; lia.
Qed.

Lemma length_filter_le {A} (P : A → Prop) `{!∀ x, Decision (P x)} (l : list A) :
  (length (filter P l) ≤ length l)%nat.
Proof.
  induction l as [|x l IH]; [done|].
  rewrite filter_cons. case_decide; simpl; lia.
Qed.

(** ** The division never fails *)

Lemma mapValues_keyed_ok {V W} (f : V → result W) (g : V → W) (m : gmap string V) :
  (∀ k v, m !! k = Some v → f v = Ok (g v)) →
  mapValues_keyed f m = Ok (g <$> m).
Proof.
  unfold mapValues_keyed.
  apply (map_fold_weak_ind
           (λ r m, (∀ k v, m !! k = Some v → f v = Ok (g v)) → r = Ok (g <$> m))).
  - intros _. by rewrite fmap_empty.
  - intros i x m' r Hi IH Hall.
    rewrite IH.
    + unfold mbind, result_bind, mret, result_ret.
      rewrite (Hall i x) by apply lookup_insert_eq.
      by rewrite fmap_insert.
    + intros k v Hk. apply (Hall k).
      rewrite lookup_insert_ne; [done|]. intros ->. congruence.
Qed.

Lemma truediv_ok (a b : Z) : b ≠ 0 → truediv a b = Ok (avg_of (a, b)).
Proof. intros Hb. unfold truediv. by destruct (Z.eqb_spec b 0). Qed.

Lemma group_sum_count_Some (g : list Row.t) (x : Z * Z) :
  group_sum_count g = Some x →
  g ≠ [] ∧ x = (sum_Z (Row.salary <$> g), Z.of_nat (length g)) ∧ 1 <= x.2.
Proof.
  destruct g as [|r g]; [done|]. intros [= <-].
  repeat split; [done|]. simpl. lia.
Qed.

Lemma group_rows_nonempty (key : Row.t → string) (k : string) (df : list Row.t) :
  group_rows key k df ≠ [] ↔ ∃ r, r ∈ df ∧ key r = k.
Proof.
  unfold group_rows. split.
  - destruct (filter _ df) as [|r g] eqn:E; [done|]. intros _.
    exists r.
    assert (r ∈ filter (λ row, key row = k) df) as Hin by (rewrite E; by left).
    apply list_elem_of_filter in Hin. tauto.
  - intros (r & Hr & Hk) E.
    assert (r ∈ filter (λ row, key row = k) df) as Hin
      by by apply list_elem_of_filter.
    rewrite E in Hin. by apply not_elem_of_nil in Hin.
Qed.

Lemma kv_reduce_count_pos (key : Row.t → string) (df : list Row.t) :
  map_Forall (λ _ x, 1 <= x.2) (reduceByKey combine (kv_pairs key df)).
Proof.
  intros k x Hx. rewrite kv_reduce_lookup in Hx.
  by apply group_sum_count_Some in Hx as (_ & _ & ?).
Qed.

Lemma dept_avg_salary_ok (df : list Row.t) :
  dept_avg_salary df = Ok (avg_of <$> dept_sum_count df).
Proof.
  unfold dept_avg_salary. apply mapValues_keyed_ok.
  intros k [s c] Hk. simpl. apply truediv_ok.
  apply (kv_reduce_count_pos Row.department) in Hk. simpl in Hk. lia.
Qed.

Lemma age_group_stats_ok (df : list Row.t) :
  age_group_stats df = Ok ((λ x, (avg_of x, x.2)) <$> age_sum_count df).
Proof.
  unfold age_group_stats. apply mapValues_keyed_ok.
  intros k [s c] Hk. simpl. rewrite truediv_ok; [done|].
  apply (kv_reduce_count_pos band_of) in Hk. simpl in Hk. lia.
Qed.

(** ** The tabular path, key by key *)

Lemma groupBy_lookup (key : Feat.t → string) (rows : list Feat.t) (k : string) :
  groupBy key rows !! k = nonempty (filter (λ row, key row = k) rows).
Proof.
  induction rows as [|r rows IH]; [done|].
  cbn [groupBy foldr]. fold (groupBy key rows).
  rewrite lookup_partial_alter, filter_cons.
  case_decide as Hk.
  - subst k. rewrite IH. by destruct (filter _ rows).
  - done.
Qed.

Lemma filter_with_features (key' : Feat.t → string) (key : Row.t → string)
    (k : string) (df : list Row.t) :
  (∀ row, key' (with_features row) = key row) →
  filter (λ row, key' row = k) (with_features <$> df)
  = with_features <$> group_rows key k df.
Proof.
  intros Hkey. unfold group_rows.
  induction df as [|r df IH]; [done|].
  rewrite fmap_cons, !filter_cons, Hkey.
  case_decide; [rewrite fmap_cons|]; by rewrite IH.
Qed.

Lemma nonempty_fmap {A B} (f : A → B) (l : list A) :
  nonempty (f <$> l) = (λ g : list A, f <$> g) <$> nonempty l.
Proof. by destruct l. Qed.

Lemma dept_stats_lookup (df : list Row.t) (k : string) :
  dept_stats df !! k
  = (λ g, DeptStats.mk (Z.of_nat (length g))
            (sql_avg Feat.salary (with_features <$> g))
            (sql_avg Feat.age (with_features <$> g)))
      <$> nonempty (group_rows Row.department k df).
Proof.
  unfold dept_stats, df_with_features.
  rewrite lookup_fmap, groupBy_lookup.
  rewrite (filter_with_features Feat.department Row.department) by done.
  rewrite nonempty_fmap, <- option_fmap_compose.
  apply option_fmap_ext. intros g. simpl. unfold sql_count.
  by rewrite length_fmap.
Qed.

Lemma age_stats_lookup (df : list Row.t) (k : string) :
  age_stats df !! k
  = (λ g, AgeStats.mk (Z.of_nat (length g))
            (sql_avg Feat.salary (with_features <$> g)))
      <$> nonempty (group_rows band_of k df).
Proof.
  unfold age_stats, df_with_features.
  rewrite lookup_fmap, groupBy_lookup.
  rewrite (filter_with_features Feat.age_group band_of) by done.
  rewrite nonempty_fmap, <- option_fmap_compose.
  apply option_fmap_ext. intros g. simpl. unfold sql_count.
  by rewrite length_fmap.
Qed.

(** Where the doubles add up exactly, [avg] divides the sum of the column
    by the number of rows. *)
Lemma sql_avg_exact (col : Feat.t → Z) (col' : Row.t → Z) (g : list Row.t) :
  (∀ row, col (with_features row) = col' row) →
  g ≠ [] →
  Z.of_nat (length g) <= 2 ^ 53 →
  abs_total col' g <= 2 ^ 53 →
  sql_avg col (with_features <$> g)
  = Some (inject_Z (sum_Z (col' <$> g)) / inject_Z (Z.of_nat (length g)))%Q.
Proof.
  intros Hcol Hg Hlen Habs. destruct g as [|r g]; [done|].
  change (with_features <$> r :: g) with (with_features r :: (with_features <$> g)).
  unfold sql_avg, sql_count.
  rewrite <- fmap_cons, <- list_fmap_compose, length_fmap.
  assert (col ∘ with_features <$> r :: g = col' <$> r :: g) as ->.
  { apply list_fmap_ext. intros _ row _. apply Hcol. }
  rewrite round53_exact by lia.
  rewrite double_sum_exact; [done|].
  unfold abs_total in Habs. by rewrite <- list_fmap_compose.
Qed.

Lemma sql_avg_salary_features (g : list Row.t) :
  Z.of_nat (length g) <= 2 ^ 53 →
  abs_total Row.salary g <= 2 ^ 53 →
  sql_avg Feat.salary (with_features <$> g) = avg_of <$> group_sum_count g.
Proof.
  intros Hlen Habs. destruct g as [|r g]; [done|].
  by rewrite (sql_avg_exact Feat.salary Row.salary).
Qed.

Lemma kv_key_present (key : Row.t → string) (df : list Row.t) (k : string) :
  is_Some (reduceByKey combine (kv_pairs key df) !! k) ↔ ∃ r, r ∈ df ∧ key r = k.
Proof.
  rewrite kv_reduce_lookup, <- group_rows_nonempty.
  destruct (group_rows key k df); simpl; split; intros H;
    first [done | by destruct H | by eexists].
Qed.

Lemma nonempty_is_Some {A} (l : list A) : is_Some (nonempty l) ↔ l ≠ [].
Proof.
  destruct l; simpl; split; intros H; first [done | by destruct H | by eexists].
Qed.

(** C7.  For every input the key-value path finishes without a
    [ZeroDivisionError]; every [(sum, count)] pair it divides has a count
    of at least 1; a key is in a result exactly when some record carries
    it; and in the tabular path every group has a count of at least 1 and
    averages that are not NULL. *)
Theorem division_never_by_zero (df : list Row.t) :
  (∃ log d a, apply_rdd_transformations df = Ok (log, (d, a))
     ∧ dept_avg_salary df = Ok d ∧ age_group_stats df = Ok a
     ∧ (∀ k, is_Some (d !! k) ↔ ∃ r, r ∈ df ∧ Row.department r = k)
     ∧ (∀ k, is_Some (a !! k) ↔ ∃ r, r ∈ df ∧ band_of r = k)
     ∧ map_Forall (λ _ x, 1 <= x.2) a)
  ∧ map_Forall (λ _ x, 1 <= x.2) (dept_sum_count df)
  ∧ map_Forall (λ _ x, 1 <= x.2) (age_sum_count df)
  ∧ (∀ k, is_Some (dept_stats df !! k) ↔ ∃ r, r ∈ df ∧ Row.department r = k)
  ∧ (∀ k, is_Some (age_stats df !! k) ↔ ∃ r, r ∈ df ∧ band_of r = k)
  ∧ map_Forall (λ _ st, 1 <= DeptStats.employee_count st
                        ∧ is_Some (DeptStats.avg_salary st)
                        ∧ is_Some (DeptStats.avg_age st)) (dept_stats df)
  ∧ map_Forall (λ _ st, 1 <= AgeStats.count st
                        ∧ is_Some (AgeStats.avg_salary st)) (age_stats df).
Proof.
  split; [|split; [|split; [|split; [|split; [|split]]]]].
  - eexists _, _, _. unfold apply_rdd_transformations.
    rewrite dept_avg_salary_ok, age_group_stats_ok.
    split; [reflexivity|]. split; [done|]. split; [done|].
    split; [|split].
    + intros k. rewrite lookup_fmap, fmap_is_Some.
      apply (kv_key_present Row.department).
    + intros k. rewrite lookup_fmap, fmap_is_Some.
      apply (kv_key_present band_of).
    + intros k x. rewrite lookup_fmap.
      destruct (age_sum_count df !! k) as [y|] eqn:E; [|done].
      intros [= <-]. simpl. by apply (kv_reduce_count_pos band_of df k y).
  - apply (kv_reduce_count_pos Row.department).
  - apply (kv_reduce_count_pos band_of).
  - intros k. rewrite dept_stats_lookup, fmap_is_Some, nonempty_is_Some.
    apply group_rows_nonempty.
  - intros k. rewrite age_stats_lookup, fmap_is_Some, nonempty_is_Some.
    apply group_rows_nonempty.
  - intros k st. rewrite dept_stats_lookup.
    destruct (group_rows Row.department k df) as [|r g]; [done|].
    intros [= <-]. cbn [DeptStats.employee_count DeptStats.avg_salary DeptStats.avg_age].
    split; [simpl length; lia|]. split; by eexists.
  - intros k st. rewrite age_stats_lookup.
    destruct (group_rows band_of k df) as [|r g]; [done|].
    intros [= <-]. cbn [AgeStats.count AgeStats.avg_salary].
    split; [simpl length; lia|]. by eexists.
Qed.

(** ** The two paths agree where the doubles add up exactly *)

Lemma group_rows_exact (col : Row.t → Z) (key : Row.t → string) (k : string)
    (df : list Row.t) :
  Z.of_nat (length df) <= 2 ^ 53 →
  abs_total col df <= 2 ^ 53 →
  Z.of_nat (length (group_rows key k df)) <= 2 ^ 53
  ∧ abs_total col (group_rows key k df) <= 2 ^ 53.
Proof.
  intros Hlen Habs. unfold group_rows. split.
  - pose proof (length_filter_le (λ row, key row = k) df). lia.
  - pose proof (abs_total_filter col (λ row, key row = k) df). lia.
Qed.

Lemma avg_lookup_agree (df : list Row.t) :
  Z.of_nat (length df) <= 2 ^ 53 →
  abs_total Row.salary df <= 2 ^ 53 →
  (∀ k, (avg_of <$> dept_sum_count df) !! k
        = dept_stats df !! k ≫= DeptStats.avg_salary)
  ∧ (∀ k, fst <$> ((λ x, (avg_of x, x.2)) <$> age_sum_count df) !! k
          = age_stats df !! k ≫= AgeStats.avg_salary).
Proof.
  intros Hlen Habs. split.
  - intros k. rewrite lookup_fmap, dept_sum_count_lookup, dept_stats_lookup.
    destruct (group_rows_exact Row.salary Row.department k df Hlen Habs) as [H1 H2].
    destruct (group_rows Row.department k df) as [|r g]; [done|].
    cbn [nonempty fmap option_fmap option_map mbind option_bind DeptStats.avg_salary].
    by rewrite sql_avg_salary_features.
  - intros k. rewrite lookup_fmap, age_sum_count_lookup, age_stats_lookup.
    destruct (group_rows_exact Row.salary band_of k df Hlen Habs) as [H1 H2].
    destruct (group_rows band_of k df) as [|r g]; [done|].
    cbn [nonempty fmap option_fmap option_map mbind option_bind AgeStats.avg_salary].
    by rewrite sql_avg_salary_features.
Qed.

Lemma age_counts_agree (df : list Row.t) (k : string) :
  snd <$> ((λ x, (avg_of x, x.2)) <$> age_sum_count df) !! k
  = AgeStats.count <$> age_stats df !! k.
Proof.
  rewrite lookup_fmap, age_sum_count_lookup, age_stats_lookup.
  by destruct (group_rows band_of k df) as [|r g].
Qed.

(** C1, where the sums are exact.  For every data set of at most [2^53] rows whose
    salaries, in absolute value, add up to at most [2^53], so that
    [avg] adds them without rounding, the key-value path returns, and
    for every key its average salary is the one the tabular path has for
    that key, by department and by age band alike (both have no entry
    for a key that does not occur); the age-band counts agree too, and
    every department and every age band of a record has an entry. *)
Theorem paths_agree_on_exact_sums (df : list Row.t) :
  Z.of_nat (length df) <= 2 ^ 53 →
  abs_total Row.salary df <= 2 ^ 53 →
  ∃ d a, dept_avg_salary df = Ok d ∧ age_group_stats df = Ok a
    ∧ (∀ k, d !! k = dept_stats df !! k ≫= DeptStats.avg_salary)
    ∧ (∀ k, fst <$> a !! k = age_stats df !! k ≫= AgeStats.avg_salary)
    ∧ (∀ k, snd <$> a !! k = AgeStats.count <$> age_stats df !! k)
    ∧ Forall (λ r, is_Some (d !! Row.department r) ∧ is_Some (a !! band_of r)) df.
Proof.
  intros Hlen Habs.
  eexists _, _. split; [apply dept_avg_salary_ok|].
  split; [apply age_group_stats_ok|].
  destruct (avg_lookup_agree df Hlen Habs) as (H1 & H2).
  split; [done|]. split; [done|]. split; [apply age_counts_agree|].
  apply Forall_forall. intros r Hr. rewrite !lookup_fmap, !fmap_is_Some. split.
  - apply (kv_key_present Row.department). by exists r.
  - apply (kv_key_present band_of). by exists r.
Qed.

Lemma paths_agree_on_exact_sums_witness :
  ∃ d a, dept_avg_salary example_df = Ok d ∧ age_group_stats example_df = Ok a
    ∧ (∀ k, d !! k = dept_stats example_df !! k ≫= DeptStats.avg_salary)
    ∧ (∀ k, fst <$> a !! k = age_stats example_df !! k ≫= AgeStats.avg_salary)
    ∧ (∀ k, snd <$> a !! k = AgeStats.count <$> age_stats example_df !! k)
    ∧ Forall (λ r, is_Some (d !! Row.department r) ∧ is_Some (a !! band_of r))
             example_df.
Proof.
  apply (paths_agree_on_exact_sums example_df); vm_compute; discriminate.
Defined.

(** C1 does not hold of every data set.  The two salaries [2^53 + 1]
    and [- 2^53] of one department: the
    key-value path adds them as integers and returns a half; [avg] turns
    the first into the double [2^53], adds to zero and returns zero. *)
Lemma paths_disagree_on_large_salaries :
  ∃ d q q',
    dept_avg_salary large_df = Ok d
    ∧ d !! "Engineering" = Some q
    ∧ dept_stats large_df !! "Engineering" ≫= DeptStats.avg_salary = Some q'
    ∧ (q == 1 # 2)%Q ∧ (q' == 0)%Q ∧ ¬ (q == q')%Q
    ∧ d !! "Engineering" ≠ dept_stats large_df !! "Engineering" ≫= DeptStats.avg_salary.
Proof.
  eexists _, _, _. split; [apply dept_avg_salary_ok|].
  rewrite lookup_fmap, dept_sum_count_lookup, dept_stats_lookup.
  split; [vm_compute; reflexivity|]. split; [vm_compute; reflexivity|].
  split; [reflexivity|]. split; [reflexivity|]. split; [by vm_compute|].
  vm_compute. discriminate.
Qed.

(** ** Any execution of reduceByKey gives the sequential fold *)

Lemma reduce_plan_combine_lookup (p : plan (string * (Z * Z))) (k : string) :
  reduce_plan combine p !! k = pair_sum (values_of k (plan_rows p)).
Proof.
  induction p as [rows|l IHl r IHr]; simpl.
  - apply reduceByKey_combine_lookup.
  - by rewrite lookup_union_with, IHl, IHr, values_of_app, pair_sum_app.
Qed.

Lemma reduce_plan_combine (p : plan (string * (Z * Z))) (rdd : list (string * (Z * Z))) :
  plan_rows p ≡ₚ rdd → reduce_plan combine p = reduceByKey combine rdd.
Proof.
  intros Hp. apply map_eq. intros k.
  rewrite reduce_plan_combine_lookup, reduceByKey_combine_lookup.
  by apply pair_sum_perm, values_of_perm.
Qed.

(** C4.  However the pairs are split into partitions, in whatever order
    they are laid out and whatever the shape of the tree of merges, the
    per-key [(sum, count)] pairs are those of the single left-to-right
    fold over the whole input, and so is every result computed from them:
    the department averages and the age-band statistics in particular. *)
Theorem reduce_order_independent (rdd : list (string * (Z * Z)))
    (p : plan (string * (Z * Z))) :
  plan_rows p ≡ₚ rdd →
  reduce_plan combine p = reduceByKey combine rdd
  ∧ (∀ k, reduce_plan combine p !! k = pair_sum (values_of k rdd))
  ∧ (∀ df, rdd = kv_pairs Row.department df →
       mapValues_keyed (λ x, truediv x.1 x.2) (reduce_plan combine p)
       = dept_avg_salary df)
  ∧ (∀ df, rdd = kv_pairs band_of df →
       mapValues_keyed (λ x, q ← truediv x.1 x.2; mret (q, x.2)) (reduce_plan combine p)
       = age_group_stats df).
Proof.
  intros Hp. pose proof (reduce_plan_combine p rdd Hp) as E.
  split; [done|]. split; [|split].
  - intros k. by rewrite E, reduceByKey_combine_lookup.
  - intros df ->. by rewrite E.
  - intros df ->. by rewrite E.
Qed.

(** ** The counts of a grouped result add up to the number of rows *)

Lemma filter_length_complement {A} (P : A → Prop) `{!∀ x, Decision (P x)} (l : list A) :
  (length (filter P l) + length (filter (λ x, ¬ P x) l))%nat = length l.
Proof. by rewrite <- length_app, filter_app_complement. Qed.

Lemma group_size_Some {A} (key : A → string) (k : string) (rows : list A) (n : Z) :
  group_size key k rows = Some n →
  n = Z.of_nat (length (filter (λ row, key row = k) rows)).
Proof.
  unfold group_size. destruct (filter _ rows); [done|]. by intros [= <-].
Qed.

Lemma group_size_None {A} (key : A → string) (k : string) (rows : list A) :
  group_size key k rows = None ↔ filter (λ row, key row = k) rows = [].
Proof. unfold group_size. by destruct (filter _ rows). Qed.

Lemma group_size_other {A} (key : A → string) (i k : string) (rows : list A) :
  i ≠ k →
  group_size key k (filter (λ row, key row ≠ i) rows) = group_size key k rows.
Proof.
  intros Hik. unfold group_size. rewrite list_filter_filter.
  f_equal. f_equal. apply list_filter_iff. intros row.
  split; [by intros [? _]|]. intros Hk. split; [done|congruence].
Qed.

Lemma group_size_removed {A} (key : A → string) (i : string) (rows : list A) :
  group_size key i (filter (λ row, key row ≠ i) rows) = None.
Proof.
  apply group_size_None. rewrite list_filter_filter.
  induction rows as [|r rows IH]; [done|].
  rewrite filter_cons_False; [done|]. by intros [? ?].
Qed.

Lemma total_count_partition {A V} (cnt : V → Z) (key : A → string)
    (m : gmap string V) (rows : list A) :
  (∀ k, cnt <$> m !! k = group_size key k rows) →
  total_count cnt m = Z.of_nat (length rows).
Proof.
  unfold total_count. revert rows.
  induction m as [|i x m Hi IH] using map_ind; intros rows Hm.
  - rewrite map_fold_empty. destruct rows as [|r rows]; [done|].
    specialize (Hm (key r)). rewrite lookup_empty in Hm. symmetry in Hm.
    apply group_size_None in Hm. rewrite filter_cons_True in Hm; done.
  - rewrite map_fold_insert_L; [|intros; lia|done].
    rewrite (IH (filter (λ row, key row ≠ i) rows)).
    + pose proof (Hm i) as Hx. rewrite lookup_insert_eq in Hx.
      symmetry in Hx. apply group_size_Some in Hx. rewrite Hx.
      pose proof (filter_length_complement (λ row, key row = i) rows). lia.
    + intros k. destruct (decide (i = k)) as [<-|Hik].
      * by rewrite Hi, group_size_removed.
      * rewrite group_size_other by done.
        by rewrite <- Hm, lookup_insert_ne.
Qed.

Lemma kv_count_lookup (key : Row.t → string) (df : list Row.t) (k : string) :
  snd <$> reduceByKey combine (kv_pairs key df) !! k = group_size key k df.
Proof.
  rewrite kv_reduce_lookup. unfold group_size, group_rows.
  by destruct (filter _ df).
Qed.

(** C8.  The per-group counts add up to the number of input records: the
    [employee_count] column of the department statistics, the [count]
    column of the age statistics, and the counts of the key-value path
    (those it returns by age band, and those it divides by). *)
Theorem counts_partition_input (df : list Row.t) :
  total_count DeptStats.employee_count (dept_stats df) = Z.of_nat (length df)
  ∧ total_count AgeStats.count (age_stats df) = Z.of_nat (length df)
  ∧ (∃ a, age_group_stats df = Ok a ∧ total_count snd a = Z.of_nat (length df))
  ∧ total_count snd (dept_sum_count df) = Z.of_nat (length df)
  ∧ total_count snd (age_sum_count df) = Z.of_nat (length df).
Proof.
  split; [|split; [|split; [|split]]].
  - apply (total_count_partition _ Row.department). intros k.
    rewrite dept_stats_lookup. unfold group_size, group_rows.
    by destruct (filter _ df).
  - apply (total_count_partition _ band_of). intros k.
    rewrite age_stats_lookup. unfold group_size, group_rows.
    by destruct (filter _ df).
  - eexists. split; [apply age_group_stats_ok|].
    apply (total_count_partition _ band_of). intros k.
    rewrite lookup_fmap, <- option_fmap_compose.
    apply (kv_count_lookup band_of).
  - apply (total_count_partition _ Row.department), (kv_count_lookup Row.department).
  - apply (total_count_partition _ band_of), (kv_count_lookup band_of).
Qed.

Lemma reduce_order_independent_witness :
  reduce_plan combine example_plan
  = reduceByKey combine (kv_pairs Row.department example_df)
  ∧ (∀ k, reduce_plan combine example_plan !! k
          = pair_sum (values_of k (kv_pairs Row.department example_df)))
  ∧ (∀ df, kv_pairs Row.department example_df = kv_pairs Row.department df →
       mapValues_keyed (λ x, truediv x.1 x.2) (reduce_plan combine example_plan)
       = dept_avg_salary df)
  ∧ (∀ df, kv_pairs Row.department example_df = kv_pairs band_of df →
       mapValues_keyed (λ x, q ← truediv x.1 x.2; mret (q, x.2))
                       (reduce_plan combine example_plan)
       = age_group_stats df).
Proof.
  apply (reduce_order_independent (kv_pairs Row.department example_df) example_plan).
  apply (bool_decide_unpack _). vm_compute. exact I.
Defined.

(** ** The example scenario *)

Lemma example_keys (key : Row.t → string) (k : string) :
  is_Some (reduceByKey combine (kv_pairs key example_df) !! k)
  ↔ k ∈ key <$> example_df.
Proof.
  rewrite kv_key_present, list_elem_of_fmap.
  split; intros (r & H1 & H2); exists r; by split.
Qed.

(** C5.  On the three records of the example the key-value path returns
    the department averages Eng 50000 and Sales 80000 and no other
    department, and the age-band averages Young 60000 over two records
    and Middle 60000 over one, and no other band; the tabular path has
    the same averages. *)
Theorem example_scenario :
  ∃ log d a, apply_rdd_transformations example_df = Ok (log, (d, a))
    ∧ avg_is (d !! "Eng") 50000 ∧ avg_is (d !! "Sales") 80000
    ∧ (∀ k, is_Some (d !! k) ↔ k = "Eng" ∨ k = "Sales")
    ∧ avg_is (fst <$> a !! "Young") 60000 ∧ snd <$> a !! "Young" = Some 2
    ∧ avg_is (fst <$> a !! "Middle") 60000 ∧ snd <$> a !! "Middle" = Some 1
    ∧ (∀ k, is_Some (a !! k) ↔ k = "Young" ∨ k = "Middle")
    ∧ avg_is (dept_stats example_df !! "Eng" ≫= DeptStats.avg_salary) 50000
    ∧ avg_is (dept_stats example_df !! "Sales" ≫= DeptStats.avg_salary) 80000
    ∧ avg_is (age_stats example_df !! "Young" ≫= AgeStats.avg_salary) 60000
    ∧ avg_is (age_stats example_df !! "Middle" ≫= AgeStats.avg_salary) 60000.
Proof.
  eexists _, _, _. unfold apply_rdd_transformations.
  rewrite dept_avg_salary_ok, age_group_stats_ok.
  split; [reflexivity|].
  assert (∀ k, avg_of <$> dept_sum_count example_df !! k
               = dept_stats example_df !! k ≫= DeptStats.avg_salary) as Hd.
  { intros k.
    destruct (avg_lookup_agree example_df) as (H & _); [by vm_compute..|].
    by rewrite <- H, lookup_fmap. }
  assert (∀ k, avg_of <$> age_sum_count example_df !! k
               = age_stats example_df !! k ≫= AgeStats.avg_salary) as Ha.
  { intros k.
    destruct (avg_lookup_agree example_df) as (_ & H); [by vm_compute..|].
    by rewrite <- H, lookup_fmap, <- option_fmap_compose. }
  rewrite <- !Hd, <- !Ha, !lookup_fmap, <- !option_fmap_compose.
  rewrite !dept_sum_count_lookup, !age_sum_count_lookup.
  repeat split;
    try (eexists; split; [vm_compute; reflexivity|reflexivity]);
    try (vm_compute; reflexivity).
  - rewrite lookup_fmap, fmap_is_Some, (example_keys Row.department).
    cbn. rewrite !elem_of_cons, elem_of_nil. tauto.
  - rewrite lookup_fmap, fmap_is_Some, (example_keys Row.department).
    cbn. rewrite !elem_of_cons, elem_of_nil. tauto.
  - rewrite lookup_fmap, fmap_is_Some, (example_keys band_of).
    cbn. rewrite !elem_of_cons, elem_of_nil. tauto.
  - rewrite lookup_fmap, fmap_is_Some, (example_keys band_of).
    cbn. rewrite !elem_of_cons, elem_of_nil. tauto.
Qed.

(** ** The frame of the feature columns *)

(** C9.  The feature step adds the two computed columns and nothing
    else: the augmented table has as many rows as the input, row by row
    the five original columns are those of the input row, and the two
    new columns are the labels of that row's age and salary. *)
Theorem features_frame (df : list Row.t) :
  ∃ df_processed dstats astats,
    apply_dataframe_transformations df = (df_processed, dstats, astats)
    ∧ length df_processed = length df
    ∧ original_columns <$> df_processed = df
    ∧ Forall2 (λ row row',
               Feat.id row' = Row.id row ∧ Feat.name row' = Row.name row
               ∧ Feat.age row' = Row.age row ∧ Feat.salary row' = Row.salary row
               ∧ Feat.department row' = Row.department row
               ∧ Feat.age_group row' = age_group_col (Row.age row)
               ∧ Feat.salary_category row' = salary_category_col (Row.salary row))
            df df_processed.
Proof.
  eexists _, _, _. split; [reflexivity|]. unfold df_with_features.
  split; [apply length_fmap|]. split.
  - rewrite <- list_fmap_compose. rewrite <- (list_fmap_id df) at 2.
    apply list_fmap_ext. intros _ [i n a s d] _. reflexivity.
  - induction df as [|r df IH]; [constructor|].
    rewrite fmap_cons. constructor; [|exact IH]. by repeat split.
Qed.

(** ** The filter stage *)

Lemma save_results_lookup (fs : gmap string table) (rows : list Feat.t)
    (dstats : gmap string DeptStats.t) (astats : gmap string AgeStats.t) :
  let fs' := save_results fs rows dstats astats in
  fs' !! "/opt/ml/code/data/output/processed_data.parquet" = Some (ProcessedData rows)
  ∧ fs' !! "/opt/ml/code/data/output/department_stats.parquet" = Some (DepartmentStats dstats)
  ∧ fs' !! "/opt/ml/code/data/output/age_stats.parquet" = Some (AgeGroupStats astats).
Proof.
  unfold save_results.
  change (path_join output_dir "processed_data.parquet")
    with "/opt/ml/code/data/output/processed_data.parquet".
  change (path_join output_dir "department_stats.parquet")
    with "/opt/ml/code/data/output/department_stats.parquet".
  change (path_join output_dir "age_stats.parquet")
    with "/opt/ml/code/data/output/age_stats.parquet".
  cbn zeta. split; [|split].
  - rewrite lookup_insert_ne by done. rewrite lookup_insert_ne by done.
    apply lookup_insert_eq.
  - rewrite lookup_insert_ne by done. apply lookup_insert_eq.
  - apply lookup_insert_eq.
Qed.

(** C10.  The filter stage feeds the log and nothing else.  With it or
    without it the key-value path returns the same two results and the
    sink receives the same three result sets.  These are computed from
    every record of the input, whatever its salary: the entry of a key
    in either result of the key-value path is the sum of the salaries of
    all the input records of that key over their number, the counts of
    the two statistics tables are the numbers of all the input records
    of each key, every input record has its department and its age band
    in all four results, the counts add up to the size of the input and
    the saved table has all its rows. *)
Theorem filter_stage_no_effect (df : list Row.t) (fs : gmap string table) :
  ∃ log log' d a fs',
    apply_rdd_transformations df = Ok (log, (d, a))
    ∧ apply_rdd_transformations_no_filter df = Ok (log', (d, a))
    ∧ run_stages df fs = Ok (log, (d, a), fs')
    ∧ run_stages_no_filter df fs = Ok (log', (d, a), fs')
    ∧ log = LogHighSalary (Z.of_nat (length (high_salary_rdd df))) :: log'
    ∧ fs' = save_results fs (with_features <$> df) (dept_stats df) (age_stats df)
    ∧ fs' !! "/opt/ml/code/data/output/processed_data.parquet"
      = Some (ProcessedData (with_features <$> df))
    ∧ fs' !! "/opt/ml/code/data/output/department_stats.parquet"
      = Some (DepartmentStats (dept_stats df))
    ∧ fs' !! "/opt/ml/code/data/output/age_stats.parquet"
      = Some (AgeGroupStats (age_stats df))
    ∧ length (with_features <$> df) = length df
    ∧ total_count DeptStats.employee_count (dept_stats df) = Z.of_nat (length df)
    ∧ total_count AgeStats.count (age_stats df) = Z.of_nat (length df)
    ∧ total_count snd a = Z.of_nat (length df)
    ∧ (∀ k, d !! k
            = (λ g, (inject_Z (sum_Z (Row.salary <$> g))
                     / inject_Z (Z.of_nat (length g)))%Q)
                <$> nonempty (filter (λ row, Row.department row = k) df))
    ∧ (∀ k, a !! k
            = (λ g, ((inject_Z (sum_Z (Row.salary <$> g))
                      / inject_Z (Z.of_nat (length g)))%Q,
                     Z.of_nat (length g)))
                <$> nonempty (filter (λ row, age_band (Row.age row) = k) df))
    ∧ (∀ k, DeptStats.employee_count <$> dept_stats df !! k
            = (λ g, Z.of_nat (length g))
                <$> nonempty (filter (λ row, Row.department row = k) df))
    ∧ (∀ k, AgeStats.count <$> age_stats df !! k
            = (λ g, Z.of_nat (length g))
                <$> nonempty (filter (λ row, age_band (Row.age row) = k) df))
    ∧ Forall (λ row, is_Some (d !! Row.department row)
                     ∧ is_Some (a !! age_band (Row.age row))
                     ∧ is_Some (dept_stats df !! Row.department row)
                     ∧ is_Some (age_stats df !! age_band (Row.age row))) df.
Proof.
  eexists _, _, _, _, _.
  unfold run_stages, run_stages_no_filter,
    apply_rdd_transformations, apply_rdd_transformations_no_filter.
  rewrite dept_avg_salary_ok, age_group_stats_ok.
  cbn [mbind result_bind mret result_ret apply_dataframe_transformations].
  do 6 (split; [reflexivity|]).
  destruct (save_results_lookup fs (df_with_features df) (dept_stats df) (age_stats df))
    as (H1 & H2 & H3).
  do 3 (split; [done|]).
  split; [apply length_fmap|].
  split; [|split; [|split]].
  - apply (total_count_partition _ Row.department). intros k.
    rewrite dept_stats_lookup. unfold group_size, group_rows.
    by destruct (filter _ df).
  - apply (total_count_partition _ band_of). intros k.
    rewrite age_stats_lookup. unfold group_size, group_rows.
    by destruct (filter _ df).
  - apply (total_count_partition _ band_of). intros k.
    rewrite lookup_fmap, <- option_fmap_compose.
    apply (kv_count_lookup band_of).
  - split; [|split; [|split; [|split]]].
    + intros k. rewrite lookup_fmap, dept_sum_count_lookup. unfold group_rows.
      by destruct (filter _ df).
    + intros k. rewrite lookup_fmap, age_sum_count_lookup. unfold group_rows, band_of.
      by destruct (filter _ df).
    + intros k. rewrite dept_stats_lookup. unfold group_rows.
      by destruct (filter _ df).
    + intros k. rewrite age_stats_lookup. unfold group_rows, band_of.
      by destruct (filter _ df).
    + apply Forall_forall. intros r Hr.
      rewrite !lookup_fmap, !fmap_is_Some, dept_sum_count_lookup, age_sum_count_lookup,
        dept_stats_lookup, age_stats_lookup, !fmap_is_Some.
      assert (∀ key, group_rows key (key r) df ≠ []) as Hne.
      { intros key Hnil. assert (r ∈ group_rows key (key r) df) as Hin.
        { apply list_elem_of_filter. by split. }
        rewrite Hnil in Hin. by apply elem_of_nil in Hin. }
      pose proof (Hne Row.department) as Hd. pose proof (Hne band_of) as Hb.
      change (age_band (Row.age r)) with (band_of r).
      destruct (group_rows Row.department (Row.department r) df); [done|].
      destruct (group_rows band_of (band_of r) df); [done|].
      repeat split; by eexists.
Qed.

(** ** The generator and its source of draws *)

Lemma randint_step (a b : Z) (g : rng) :
  randint a b g = Ok (a + draws g (pos g) mod (b - a + 1), mk_rng (draws g) (S (pos g))).
Proof. reflexivity. Qed.

Lemma choice_step {A} (seq : list A) (g : rng) :
  seq ≠ [] →
  ∃ x, seq !! index_of_draw seq (draws g (pos g)) = Some x
       ∧ choice seq g = Ok (x, mk_rng (draws g) (S (pos g))).
Proof.
  intros Hne. unfold index_of_draw.
  assert (0 < Z.of_nat (length seq)) as Hlen by (destruct seq; simpl; [done|lia]).
  pose proof (Z.mod_pos_bound (draws g (pos g)) _ Hlen) as Hk.
  destruct (lookup_lt_is_Some_2 seq
              (Z.to_nat (draws g (pos g) mod Z.of_nat (length seq))))
    as [x Hx]; [lia|].
  exists x. split; [done|].
  unfold choice, mbind, gen_bind, randbelow. by rewrite Hx.
Qed.

Lemma generate_record_step (g : rng) :
  ∃ n d,
    names !! index_of_draw names (draws g (1 + pos g)%nat) = Some n
    ∧ departments !! index_of_draw departments (draws g (4 + pos g)%nat) = Some d
    ∧ generate_record g
      = Ok (Row.mk (id_of_draw (draws g (pos g))) n
                   (age_of_draw (draws g (2 + pos g)%nat))
                   (salary_of_draw (draws g (3 + pos g)%nat)) d,
            mk_rng (draws g) (5 + pos g)).
Proof.
  unfold generate_record, mbind, gen_bind.
  rewrite randint_step.
  destruct (choice_step names (mk_rng (draws g) (S (pos g)))) as (n & Hn & ->); [done|].
  rewrite randint_step.
  destruct (choice_step departments (mk_rng (draws g) (S (S (S (S (pos g)))))))
    as (d & Hd & E); [done|].
  cbn [draws pos] in *. rewrite randint_step. cbn [draws pos]. rewrite E.
  exists n, d. by repeat split.
Qed.

Lemma comprehension_advance (n : nat) (g : rng) :
  ∃ l, comprehension n generate_record g = Ok (l, mk_rng (draws g) (5 * n + pos g))
       ∧ length l = n.
Proof.
  revert g. induction n as [|n IH]; intros g.
  - exists []. split; [|done]. by destruct g.
  - destruct (generate_record_step g) as (nm & d & _ & _ & Hr).
    destruct (IH (mk_rng (draws g) (5 + pos g))) as (l & Hl & Hlen).
    eexists (_ :: l). cbn [comprehension]. unfold mbind, gen_bind.
    rewrite Hr, Hl. cbn [draws pos]. split; [|by rewrite <- Hlen].
    unfold mret, gen_ret. do 3 f_equal. lia.
Qed.

(** X1.  For a row count [N >= 1] the generator takes exactly five draws
    per record: it returns the source with the same stream, moved on by
    [5 * N] positions. *)
Theorem generator_uses_five_draws_per_record (N : Z) (g : rng) :
  1 <= N →
  ∃ df, create_sample_data (PyInt N) g
        = Ok (df, mk_rng (draws g) (5 * Z.to_nat N + pos g))
        ∧ Z.of_nat (length df) = N.
Proof.
  intros HN. unfold create_sample_data. simpl range.
  destruct (comprehension_advance (Z.to_nat N) g) as (l & -> & Hlen).
  destruct l as [|r l]; [simpl in Hlen; lia|].
  exists (r :: l). split; [done|]. lia.
Qed.

Lemma generator_uses_five_draws_per_record_witness :
  ∃ df, create_sample_data (PyInt 3) rng0
        = Ok (df, mk_rng (draws rng0) (5 * Z.to_nat 3 + pos rng0))
        ∧ Z.of_nat (length df) = 3.
Proof. apply (generator_uses_five_draws_per_record 3 rng0). lia. Defined.

Lemma generate_record_same_draws (g g' : rng) :
  same_draws 5 g g' →
  ∃ r, generate_record g = Ok (r, mk_rng (draws g) (5 + pos g))
       ∧ generate_record g' = Ok (r, mk_rng (draws g') (5 + pos g')).
Proof.
  intros H.
  destruct (generate_record_step g) as (n & d & Hn & Hd & E).
  destruct (generate_record_step g') as (n' & d' & Hn' & Hd' & E').
  pose proof (H 0%nat) as H0. pose proof (H 1%nat) as H1. pose proof (H 2%nat) as H2.
  pose proof (H 3%nat) as H3. pose proof (H 4%nat) as H4.
  rewrite !Nat.add_0_r in H0.
  rewrite (Nat.add_comm (pos g)), (Nat.add_comm (pos g')) in H1, H2, H3, H4.
  rewrite <- H0, <- H1, <- H2, <- H3, <- H4 in * by lia.
  rewrite Hn in Hn'. rewrite Hd in Hd'. simplify_eq.
  eexists. split; [exact E|]. exact E'.
Qed.

Lemma comprehension_same_draws (n : nat) (g g' : rng) :
  same_draws (5 * n) g g' →
  ∃ l, comprehension n generate_record g = Ok (l, mk_rng (draws g) (5 * n + pos g))
       ∧ comprehension n generate_record g' = Ok (l, mk_rng (draws g') (5 * n + pos g')).
Proof.
  revert g g'. induction n as [|n IH]; intros g g' H.
  - exists []. by destruct g, g'.
  - destruct (generate_record_same_draws g g') as (r & Hr & Hr').
    { intros i Hi. apply H. lia. }
    destruct (IH (mk_rng (draws g) (5 + pos g)) (mk_rng (draws g') (5 + pos g')))
      as (l & Hl & Hl').
    { intros i Hi. cbn [draws pos].
      replace (5 + pos g + i)%nat with (pos g + (5 + i))%nat by lia.
      replace (5 + pos g' + i)%nat with (pos g' + (5 + i))%nat by lia.
      apply H. lia. }
    exists (r :: l). cbn [comprehension]. unfold mbind, gen_bind.
    rewrite Hr, Hl, Hr', Hl'. cbn [draws pos]. unfold mret, gen_ret.
    split; do 3 f_equal; lia.
Qed.

(** X2.  The data set is a function of the [5 * N] draws the generator
    takes and of nothing else: two sources that give the same draws from
    their positions on give the same records. *)
Theorem generator_reads_only_its_draws (N : Z) (g g' : rng) :
  1 <= N →
  same_draws (5 * Z.to_nat N) g g' →
  ∃ df g1 g1', create_sample_data (PyInt N) g = Ok (df, g1)
               ∧ create_sample_data (PyInt N) g' = Ok (df, g1').
Proof.
  intros HN H. unfold create_sample_data. simpl range.
  destruct (comprehension_same_draws (Z.to_nat N) g g' H) as (l & E1 & E2).
  destruct (comprehension_advance (Z.to_nat N) g) as (l' & E & Hlen).
  rewrite E1 in E. injection E as <-.
  rewrite E1, E2. destruct l as [|r l]; [simpl in Hlen; lia|].
  by eexists _, _, _.
Qed.

Lemma generator_reads_only_its_draws_witness :
  ∃ df g1 g1', create_sample_data (PyInt 2) rng0 = Ok (df, g1)
               ∧ create_sample_data (PyInt 2) rng1 = Ok (df, g1').
Proof.
  apply (generator_reads_only_its_draws 2 rng0 rng1); [lia|].
  intros i Hi. unfold rng0, rng1. cbn [draws pos]. lia.
Defined.

Lemma comprehension_app {A} (body : gen A) (n m : nat) (g : rng) :
  comprehension (n + m) body g
  = match comprehension n body g with
    | Ok (l1, g1) =>
        match comprehension m body g1 with
        | Ok (l2, g2) => Ok (l1 ++ l2, g2)
        | Err e => Err e
        end
    | Err e => Err e
    end.
Proof.
  revert g. induction n as [|n IH]; intros g.
  - cbn [Nat.add comprehension]. unfold mret, gen_ret.
    by destruct (comprehension m body g) as [[l2 g2]|e].
  - cbn [Nat.add comprehension]. unfold mbind, gen_bind.
    destruct (body g) as [[x g0]|e]; [|done].
    rewrite IH. destruct (comprehension n body g0) as [[l1 g1]|e]; [|done].
    unfold mret, gen_ret.
    by destruct (comprehension m body g1) as [[l2 g2]|e].
Qed.

(** X3.  A smaller row count gives a prefix: from the same source, the
    data set of [K] rows is the first [K] rows of the data set of [N]
    rows, for [1 <= K <= N]. *)
Theorem smaller_count_gives_prefix (K N : Z) (g : rng) :
  1 <= K <= N →
  ∃ dfK dfN gK gN,
    create_sample_data (PyInt K) g = Ok (dfK, gK)
    ∧ create_sample_data (PyInt N) g = Ok (dfN, gN)
    ∧ dfK = take (Z.to_nat K) dfN.
Proof.
  intros HK. unfold create_sample_data. simpl range.
  replace (Z.to_nat N) with (Z.to_nat K + (Z.to_nat N - Z.to_nat K))%nat by lia.
  rewrite comprehension_app.
  destruct (comprehension_advance (Z.to_nat K) g) as (l1 & -> & Hlen1).
  destruct (comprehension_advance (Z.to_nat N - Z.to_nat K)
              (mk_rng (draws g) (5 * Z.to_nat K + pos g))) as (l2 & -> & Hlen2).
  destruct l1 as [|r l1]; [simpl in Hlen1; lia|].
  eexists _, _, _, _. cbn [toDF app]. split; [reflexivity|]. split; [reflexivity|].
  rewrite <- Hlen1. change (r :: l1 ++ l2) with ((r :: l1) ++ l2).
  by rewrite take_app_length.
Qed.

Lemma smaller_count_gives_prefix_witness :
  ∃ dfK dfN gK gN,
    create_sample_data (PyInt 2) rng0 = Ok (dfK, gK)
    ∧ create_sample_data (PyInt 5) rng0 = Ok (dfN, gN)
    ∧ dfK = take (Z.to_nat 2) dfN.
Proof. apply (smaller_count_gives_prefix 2 5 rng0). lia. Defined.

(** ** The high-salary stage *)

Lemma high_salary_elem (df : list Row.t) (row : Row.t) :
  row ∈ high_salary_rdd df ↔ row ∈ df ∧ 50000 < Row.salary row.
Proof.
  unfold high_salary_rdd, rdd_filter.
  rewrite !list_elem_of_In, filter_In, Z.ltb_lt. done.
Qed.

Lemma high_salary_sublist (df : list Row.t) : high_salary_rdd df `sublist_of` df.
Proof.
  unfold high_salary_rdd, rdd_filter.
  induction df as [|r df IH]; [constructor|].
  simpl. destruct (50000 <? Row.salary r); by constructor.
Qed.

Lemma high_salary_complement (df : list Row.t) :
  (length (high_salary_rdd df)
   + length (filter (λ row, (Row.salary row <= 50000)%Z) df))%nat = length df.
Proof.
  unfold high_salary_rdd, rdd_filter.
  induction df as [|r df IH]; [done|].
  rewrite filter_cons. simpl.
  destruct (Z.ltb_spec 50000 (Row.salary r)); case_decide; simpl; lia.
Qed.

(** X5.  The filter stage keeps, in input order, exactly the rows with a
    salary above 50000, and what the function logs first is their
    number: it lies between 0 and the number of rows and, with the
    number of rows of salary at most 50000, adds up to it. *)
Theorem high_salary_stage (df : list Row.t) :
  (∀ row, row ∈ high_salary_rdd df ↔ row ∈ df ∧ 50000 < Row.salary row)
  ∧ high_salary_rdd df `sublist_of` df
  ∧ ∃ n log kv,
      apply_rdd_transformations df = Ok (LogHighSalary n :: log, kv)
      ∧ n = Z.of_nat (length (high_salary_rdd df))
      ∧ 0 <= n <= Z.of_nat (length df)
      ∧ n + Z.of_nat (length (filter (λ row, Row.salary row <= 50000) df))
        = Z.of_nat (length df).
Proof.
  split; [apply high_salary_elem|]. split; [apply high_salary_sublist|].
  eexists _, _, _. unfold apply_rdd_transformations.
  rewrite dept_avg_salary_ok, age_group_stats_ok.
  split; [reflexivity|]. split; [reflexivity|].
  pose proof (high_salary_complement df). lia.
Qed.

(** X6.  The filter and the salary category draw the line at 50000 on
    different sides: every row the filter keeps has a category other
    than Low, every row of category High is kept, and a row that is not
    Low and still not kept has a salary of exactly 50000, which is
    Medium. *)
Theorem high_salary_and_category (df : list Row.t) :
  Forall (λ row, salary_category_col (Row.salary row) ≠ "Low") (high_salary_rdd df)
  ∧ Forall (λ row, salary_category_col (Row.salary row) = "High" →
                   row ∈ high_salary_rdd df) df
  ∧ Forall (λ row, salary_category_col (Row.salary row) ≠ "Low" →
                   row ∉ high_salary_rdd df → Row.salary row = 50000) df
  ∧ salary_category_col 50000 = "Medium"
  ∧ high_salary_rdd [Row.mk 1 "Alice" 30 50000 "Sales"] = [].
Proof.
  split; [|split; [|split; [|split]]]; try reflexivity.
  - apply Forall_forall. intros row Hrow. apply high_salary_elem in Hrow as [_ Hs].
    destruct (salary_category_cases (Row.salary row)) as [[H E]|[[H E]|[H E]]];
      rewrite E; [lia|done|done].
  - apply Forall_forall. intros row Hrow Hc. apply high_salary_elem. split; [done|].
    destruct (salary_category_cases (Row.salary row)) as [[H E]|[[H E]|[H E]]];
      rewrite E in Hc; [done|done|lia].
  - apply Forall_forall. intros row Hrow Hc Hnot.
    rewrite high_salary_elem in Hnot.
    destruct (salary_category_cases (Row.salary row)) as [[H E]|[[H E]|[H E]]];
      rewrite E in Hc; [done| |].
    + destruct (decide (Row.salary row = 50000)); [done|].
      exfalso. apply Hnot. split; [done|lia].
    + exfalso. apply Hnot. split; [done|lia].
Qed.

(** ** The keys of the results *)

Lemma keys_bounded {V} (m : gmap string V) (l : list string) :
  NoDup l → (∀ k, is_Some (m !! k) → k ∈ l) → (size m ≤ length l)%nat.
Proof.
  intros Hl Hk. rewrite <- size_dom, <- (size_list_to_set (C:=gset string) l Hl).
  apply subseteq_size. intros k Hin. apply elem_of_list_to_set, Hk.
  by apply elem_of_dom.
Qed.

Lemma dept_stats_key (df : list Row.t) (k : string) :
  is_Some (dept_stats df !! k) ↔ ∃ r, r ∈ df ∧ Row.department r = k.
Proof.
  rewrite dept_stats_lookup, fmap_is_Some, nonempty_is_Some.
  apply group_rows_nonempty.
Qed.

Lemma age_stats_key (df : list Row.t) (k : string) :
  is_Some (age_stats df !! k) ↔ ∃ r, r ∈ df ∧ band_of r = k.
Proof.
  rewrite age_stats_lookup, fmap_is_Some, nonempty_is_Some.
  apply group_rows_nonempty.
Qed.

Lemma band_of_label (r : Row.t) : band_of r ∈ age_labels.
Proof.
  unfold band_of, age_labels.
  destruct (age_band_cases (Row.age r)) as [[_ ->]|[[_ ->]|[_ ->]]];
    rewrite !elem_of_cons; tauto.
Qed.

(** X7.  Whatever the input, the age statistics of either path have no
    key but Young, Middle and Senior, hence at most three groups. *)
Theorem age_results_have_at_most_three_groups (df : list Row.t) :
  (∀ k, is_Some (age_stats df !! k) → k ∈ age_labels)
  ∧ (size (age_stats df) ≤ 3)%nat
  ∧ ∃ a, age_group_stats df = Ok a
         ∧ (∀ k, is_Some (a !! k) → k ∈ age_labels)
         ∧ (size a ≤ 3)%nat.
Proof.
  assert (NoDup age_labels) as Hnd by by apply (bool_decide_unpack _).
  assert (∀ k, is_Some (age_stats df !! k) → k ∈ age_labels) as H1.
  { intros k (r & _ & <-)%age_stats_key. apply band_of_label. }
  split; [done|]. split; [by apply (keys_bounded _ age_labels)|].
  eexists. split; [apply age_group_stats_ok|].
  assert (∀ k, is_Some (((λ x, (avg_of x, x.2)) <$> age_sum_count df) !! k)
               → k ∈ age_labels) as H2.
  { intros k. rewrite lookup_fmap, fmap_is_Some.
    intros (r & _ & <-)%(kv_key_present band_of). apply band_of_label. }
  split; [done|]. by apply (keys_bounded _ age_labels).
Qed.

(** X8.  On records within the generator's bounds the department
    statistics of either path have no key outside the five departments,
    hence at most five groups. *)
Theorem dept_results_have_at_most_five_groups (df : list Row.t) :
  Forall in_bounds df →
  (∀ k, is_Some (dept_stats df !! k) → k ∈ departments)
  ∧ (size (dept_stats df) ≤ 5)%nat
  ∧ ∃ d, dept_avg_salary df = Ok d
         ∧ (∀ k, is_Some (d !! k) → k ∈ departments)
         ∧ (size d ≤ 5)%nat.
Proof.
  intros Hall. rewrite Forall_forall in Hall.
  assert (NoDup departments) as Hnd by by apply (bool_decide_unpack _).
  assert (∀ k, is_Some (dept_stats df !! k) → k ∈ departments) as H1.
  { intros k (r & Hr & <-)%dept_stats_key. by apply Hall. }
  split; [done|]. split; [by apply (keys_bounded _ departments)|].
  eexists. split; [apply dept_avg_salary_ok|].
  assert (∀ k, is_Some ((avg_of <$> dept_sum_count df) !! k) → k ∈ departments) as H2.
  { intros k. rewrite lookup_fmap, fmap_is_Some.
    intros (r & Hr & <-)%(kv_key_present Row.department). by apply Hall. }
  split; [done|]. by apply (keys_bounded _ departments).
Qed.

Lemma dept_results_have_at_most_five_groups_witness :
  (∀ k, is_Some (dept_stats bounded_df !! k) → k ∈ departments)
  ∧ (size (dept_stats bounded_df) ≤ 5)%nat
  ∧ ∃ d, dept_avg_salary bounded_df = Ok d
         ∧ (∀ k, is_Some (d !! k) → k ∈ departments)
         ∧ (size d ≤ 5)%nat.
Proof.
  apply (dept_results_have_at_most_five_groups bounded_df).
  repeat constructor; simpl; try lia; by apply (bool_decide_unpack _).
Defined.

(** ** Sums lie between the extremes *)

Lemma sum_Z_bounds (lo hi : Z) (l : list Z) :
  Forall (λ x, lo <= x <= hi) l →
  lo * Z.of_nat (length l) <= sum_Z l <= hi * Z.of_nat (length l).
Proof.
  induction 1 as [|x l Hx _ IH]; [rewrite sum_Z_nil; simpl; lia|].
  rewrite sum_Z_cons. simpl length. lia.
Qed.

Lemma group_rows_Forall (P : Row.t → Prop) (key : Row.t → string) (k : string)
    (df : list Row.t) :
  Forall P df → Forall P (group_rows key k df).
Proof.
  rewrite !Forall_forall. intros H r Hr. apply H.
  unfold group_rows in Hr. by apply list_elem_of_filter in Hr as [_ ?].
Qed.

(** X9.  The sums the key-value path divides lie between the extremes of
    the input.  If all salaries are in [lo, hi], then for every
    department and for every age band the pair [(sum, count)] that lines
    83 and 97 reduce to, two integers, has a count of at least one and a
    sum between [lo * count] and [hi * count]; the path returns, and the
    quotient of line 84 or 98 for a key is the quotient of that pair. *)
Theorem salary_sums_within_bounds (lo hi : Z) (df : list Row.t) :
  Forall (λ row, lo <= Row.salary row <= hi) df →
  map_Forall (λ _ x, 1 <= x.2 ∧ lo * x.2 <= x.1 <= hi * x.2) (dept_sum_count df)
  ∧ map_Forall (λ _ x, 1 <= x.2 ∧ lo * x.2 <= x.1 <= hi * x.2) (age_sum_count df)
  ∧ ∃ d a, dept_avg_salary df = Ok d ∧ age_group_stats df = Ok a
      ∧ (∀ k, d !! k = avg_of <$> dept_sum_count df !! k)
      ∧ (∀ k, a !! k = (λ x, (avg_of x, x.2)) <$> age_sum_count df !! k).
Proof.
  intros Hall.
  assert (∀ key k x, reduceByKey combine (kv_pairs key df) !! k = Some x →
                     1 <= x.2 ∧ lo * x.2 <= x.1 <= hi * x.2) as Hkv.
  { intros key k x. rewrite kv_reduce_lookup.
    intros (Hne & -> & Hc)%group_sum_count_Some. cbn [fst snd] in *.
    split; [lia|].
    rewrite <- (length_fmap Row.salary). apply sum_Z_bounds, Forall_fmap.
    by apply group_rows_Forall. }
  split; [intros k x; apply (Hkv Row.department)|].
  split; [intros k x; apply (Hkv band_of)|].
  eexists _, _. split; [apply dept_avg_salary_ok|]. split; [apply age_group_stats_ok|].
  split; intros k; by rewrite lookup_fmap.
Qed.

Lemma salary_sums_within_bounds_witness :
  map_Forall (λ _ x, 1 <= x.2 ∧ 40000 * x.2 <= x.1 <= 80000 * x.2)
             (dept_sum_count example_df)
  ∧ map_Forall (λ _ x, 1 <= x.2 ∧ 40000 * x.2 <= x.1 <= 80000 * x.2)
               (age_sum_count example_df)
  ∧ ∃ d a, dept_avg_salary example_df = Ok d ∧ age_group_stats example_df = Ok a
      ∧ (∀ k, d !! k = avg_of <$> dept_sum_count example_df !! k)
      ∧ (∀ k, a !! k = (λ x, (avg_of x, x.2)) <$> age_sum_count example_df !! k).
Proof.
  apply (salary_sums_within_bounds 40000 80000 example_df).
  repeat constructor; simpl; lia.
Defined.

(** ** The order of the rows does not matter *)

Lemma group_sum_count_perm (g g' : list Row.t) :
  g ≡ₚ g' → group_sum_count g = group_sum_count g'.
Proof.
  intros H. destruct g as [|r g], g' as [|r' g']; try done.
  - by apply Permutation_nil_cons in H.
  - symmetry in H. by apply Permutation_nil_cons in H.
  - unfold group_sum_count. f_equal. f_equal.
    + apply sum_Z_perm. by rewrite H.
    + by rewrite H.
Qed.

Lemma group_rows_perm (key : Row.t → string) (k : string) (df df' : list Row.t) :
  df ≡ₚ df' → group_rows key k df ≡ₚ group_rows key k df'.
Proof. intros H. unfold group_rows. by rewrite H. Qed.

Lemma abs_total_perm (col : Row.t → Z) (df df' : list Row.t) :
  df ≡ₚ df' → abs_total col df = abs_total col df'.
Proof. intros H. unfold abs_total. apply sum_Z_perm. by rewrite H. Qed.

(** Where the doubles add up exactly [avg] does not see the order. *)
Lemma sql_avg_exact_perm (col : Feat.t → Z) (col' : Row.t → Z) (g g' : list Row.t) :
  (∀ row, col (with_features row) = col' row) →
  Z.of_nat (length g) <= 2 ^ 53 →
  abs_total col' g <= 2 ^ 53 →
  g ≡ₚ g' →
  sql_avg col (with_features <$> g) = sql_avg col (with_features <$> g').
Proof.
  intros Hcol Hlen Habs H. destruct g as [|r g], g' as [|r' g']; try done.
  - by apply Permutation_nil_cons in H.
  - symmetry in H. by apply Permutation_nil_cons in H.
  - rewrite (sql_avg_exact col col' (r :: g)) by done.
    rewrite (sql_avg_exact col col' (r' :: g'));
      [|done|done|by rewrite <- H|by rewrite <- (abs_total_perm col' _ _ H)].
    do 3 f_equal; [apply sum_Z_perm|]; by rewrite H.
Qed.

Lemma nonempty_stats_perm {A B} (f : list A → B) (g g' : list A) :
  g ≡ₚ g' → (∀ l l', l ≡ₚ l' → f l = f l') → f <$> nonempty g = f <$> nonempty g'.
Proof.
  intros H Hf. destruct g as [|r g], g' as [|r' g']; try done.
  - by apply Permutation_nil_cons in H.
  - symmetry in H. by apply Permutation_nil_cons in H.
  - simpl. f_equal. by apply Hf.
Qed.

(** Where they do not, it does: the same three doubles in two orders. *)
Lemma double_sum_sees_order :
  double_sum [2 ^ 53; 1; - 2 ^ 53] = 0 ∧ double_sum [2 ^ 53; - 2 ^ 53; 1] = 1.
Proof. split; reflexivity. Qed.

(** X11.  The order of the rows does not matter where the sums are
    exact.  Two inputs with the same rows in different orders give the
    same department and age-band results in the key-value path, whose
    sums are sums of integers, the same processed rows up to order,
    and the same counts in the two statistics tables.  If the input has
    at most [2^53] rows and its salaries, in absolute value, add up to
    at most [2^53], the age statistics are the same table; if its ages
    do too, the department statistics are the same table. *)
Theorem results_ignore_row_order (df df' : list Row.t) :
  df ≡ₚ df' →
  dept_avg_salary df = dept_avg_salary df'
  ∧ age_group_stats df = age_group_stats df'
  ∧ df_with_features df ≡ₚ df_with_features df'
  ∧ (∀ k, DeptStats.employee_count <$> dept_stats df !! k
          = DeptStats.employee_count <$> dept_stats df' !! k)
  ∧ (∀ k, AgeStats.count <$> age_stats df !! k = AgeStats.count <$> age_stats df' !! k)
  ∧ (Z.of_nat (length df) <= 2 ^ 53 → abs_total Row.salary df <= 2 ^ 53 →
     age_stats df = age_stats df'
     ∧ (abs_total Row.age df <= 2 ^ 53 → dept_stats df = dept_stats df')).
Proof.
  intros H.
  assert (∀ key, reduceByKey combine (kv_pairs key df)
                 = reduceByKey combine (kv_pairs key df')) as Hkv.
  { intros key. apply map_eq. intros k. rewrite !kv_reduce_lookup.
    by apply group_sum_count_perm, group_rows_perm. }
  split; [|split; [|split; [|split; [|split]]]].
  - rewrite !dept_avg_salary_ok. unfold dept_sum_count.
    f_equal. f_equal. apply (Hkv Row.department).
  - rewrite !age_group_stats_ok. unfold age_sum_count.
    f_equal. f_equal. apply (Hkv band_of).
  - unfold df_with_features. by rewrite H.
  - intros k. rewrite !dept_stats_lookup, <- !option_fmap_compose.
    apply nonempty_stats_perm; [by apply group_rows_perm|].
    intros l l' Hl. simpl. by rewrite Hl.
  - intros k. rewrite !age_stats_lookup, <- !option_fmap_compose.
    apply nonempty_stats_perm; [by apply group_rows_perm|].
    intros l l' Hl. simpl. by rewrite Hl.
  - intros Hlen Hsal. split.
    + apply map_eq. intros k. rewrite !age_stats_lookup.
      destruct (group_rows_exact Row.salary band_of k df Hlen Hsal) as [H1 H2].
      pose proof (group_rows_perm band_of k df df' H) as Hg.
      destruct (group_rows band_of k df) as [|r g],
        (group_rows band_of k df') as [|r' g']; try done.
      * by apply Permutation_nil_cons in Hg.
      * symmetry in Hg. by apply Permutation_nil_cons in Hg.
      * cbn [nonempty fmap option_fmap option_map]. f_equal. f_equal.
        -- by rewrite Hg.
        -- by apply (sql_avg_exact_perm Feat.salary Row.salary).
    + intros Hage. apply map_eq. intros k. rewrite !dept_stats_lookup.
      destruct (group_rows_exact Row.salary Row.department k df Hlen Hsal) as [H1 H2].
      destruct (group_rows_exact Row.age Row.department k df Hlen Hage) as [_ H3].
      pose proof (group_rows_perm Row.department k df df' H) as Hg.
      destruct (group_rows Row.department k df) as [|r g],
        (group_rows Row.department k df') as [|r' g']; try done.
      * by apply Permutation_nil_cons in Hg.
      * symmetry in Hg. by apply Permutation_nil_cons in Hg.
      * cbn [nonempty fmap option_fmap option_map]. f_equal. f_equal.
        -- by rewrite Hg.
        -- by apply (sql_avg_exact_perm Feat.salary Row.salary).
        -- by apply (sql_avg_exact_perm Feat.age Row.age).
Qed.

Lemma results_ignore_row_order_witness :
  (dept_avg_salary example_df = dept_avg_salary (reverse example_df)
   ∧ age_group_stats example_df = age_group_stats (reverse example_df)
   ∧ df_with_features example_df ≡ₚ df_with_features (reverse example_df)
   ∧ (∀ k, DeptStats.employee_count <$> dept_stats example_df !! k
           = DeptStats.employee_count <$> dept_stats (reverse example_df) !! k)
   ∧ (∀ k, AgeStats.count <$> age_stats example_df !! k
           = AgeStats.count <$> age_stats (reverse example_df) !! k))
  ∧ age_stats example_df = age_stats (reverse example_df)
  ∧ dept_stats example_df = dept_stats (reverse example_df).
Proof.
  destruct (results_ignore_row_order example_df (reverse example_df))
    as (H1 & H2 & H3 & H4 & H5 & H6).
  { symmetry. apply reverse_Permutation. }
  destruct H6 as (H6 & H7); [by vm_compute..|].
  split; [by repeat split|]. split; [exact H6|].
  apply H7. by vm_compute.
Defined.

(** ** Empty input *)

Lemma keyed_empty_iff {V} (m : gmap string V) (key : Row.t → string) (df : list Row.t) :
  (∀ k, is_Some (m !! k) ↔ ∃ r, r ∈ df ∧ key r = k) →
  m = ∅ ↔ df = [].
Proof.
  intros Hm. split.
  - intros ->. destruct df as [|r df]; [done|].
    assert (is_Some ((∅ : gmap string V) !! key r)) as [? Hx].
    { apply Hm. exists r. split; [by left|done]. }
    by rewrite lookup_empty in Hx.
  - intros ->. apply map_empty. intros k.
    apply eq_None_not_Some. intros (r & Hr & _)%Hm.
    by apply elem_of_nil in Hr.
Qed.

(** X12.  A data frame without rows goes through both paths without an
    error and gives results without entries, and only such a data frame
    does: a result of either path is empty exactly when the input is. *)
Theorem results_empty_iff_input_empty (df : list Row.t) :
  ∃ log d a, apply_rdd_transformations df = Ok (log, (d, a))
    ∧ (d = ∅ ↔ df = []) ∧ (a = ∅ ↔ df = [])
    ∧ (dept_stats df = ∅ ↔ df = []) ∧ (age_stats df = ∅ ↔ df = [])
    ∧ (df_with_features df = [] ↔ df = []).
Proof.
  eexists _, _, _. unfold apply_rdd_transformations.
  rewrite dept_avg_salary_ok, age_group_stats_ok.
  split; [reflexivity|]. split; [|split; [|split; [|split]]].
  - apply (keyed_empty_iff _ Row.department). intros k.
    rewrite lookup_fmap, fmap_is_Some. apply (kv_key_present Row.department).
  - apply (keyed_empty_iff _ band_of). intros k.
    rewrite lookup_fmap, fmap_is_Some. apply (kv_key_present band_of).
  - apply (keyed_empty_iff _ Row.department), dept_stats_key.
  - apply (keyed_empty_iff _ band_of), age_stats_key.
  - unfold df_with_features. by destruct df.
Qed.

(** ** The sink *)

Lemma paths_distinct :
  processed_path ≠ dept_stats_path ∧ processed_path ≠ age_stats_path
  ∧ dept_stats_path ≠ age_stats_path.
Proof. repeat split; by compute. Qed.

Lemma save_results_eq (fs : gmap string table) (rows : list Feat.t)
    (dstats : gmap string DeptStats.t) (astats : gmap string AgeStats.t) :
  save_results fs rows dstats astats
  = <[age_stats_path := AgeGroupStats astats]>
      (<[dept_stats_path := DepartmentStats dstats]>
         (<[processed_path := ProcessedData rows]> fs)).
Proof. reflexivity. Qed.

Lemma save_results_other (fs : gmap string table) (rows : list Feat.t)
    (dstats : gmap string DeptStats.t) (astats : gmap string AgeStats.t) (p : string) :
  p ≠ processed_path → p ≠ dept_stats_path → p ≠ age_stats_path →
  save_results fs rows dstats astats !! p = fs !! p.
Proof.
  intros H1 H2 H3. rewrite save_results_eq.
  by rewrite !lookup_insert_ne.
Qed.

(** X13.  Saving overwrites: a second save leaves exactly what it wrote,
    as if the first had not happened, so saving the same results twice
    is saving them once; every other path of the sink keeps what it
    held, and the sink gains the three output paths and no other. *)
Theorem save_results_overwrites (fs : gmap string table)
    (rows1 rows2 : list Feat.t) (d1 d2 : gmap string DeptStats.t)
    (a1 a2 : gmap string AgeStats.t) :
  save_results (save_results fs rows1 d1 a1) rows2 d2 a2 = save_results fs rows2 d2 a2
  ∧ save_results (save_results fs rows1 d1 a1) rows1 d1 a1 = save_results fs rows1 d1 a1
  ∧ (∀ p, p ∉ [processed_path; dept_stats_path; age_stats_path] →
          save_results fs rows1 d1 a1 !! p = fs !! p)
  ∧ dom (save_results fs rows1 d1 a1)
    = {[processed_path; dept_stats_path; age_stats_path]} ∪ dom fs.
Proof.
  destruct paths_distinct as (H12 & H13 & H23).
  assert (∀ r d a, save_results (save_results fs rows1 d1 a1) r d a
                   = save_results fs r d a) as Hover.
  { intros r d a. apply map_eq. intros p. rewrite !save_results_eq.
    destruct (decide (p = age_stats_path)) as [->|H3];
      [by rewrite !lookup_insert_eq|].
    rewrite (lookup_insert_ne _ age_stats_path) by done.
    rewrite (lookup_insert_ne (<[dept_stats_path:=_]> (<[processed_path:=ProcessedData r]> fs))
               age_stats_path) by done.
    destruct (decide (p = dept_stats_path)) as [->|H2];
      [by rewrite !lookup_insert_eq|].
    rewrite !(lookup_insert_ne _ dept_stats_path) by done.
    destruct (decide (p = processed_path)) as [->|H1];
      [by rewrite !lookup_insert_eq|].
    rewrite !(lookup_insert_ne _ processed_path) by done.
    by rewrite !lookup_insert_ne. }
  split; [apply Hover|]. split; [apply Hover|]. split.
  - intros p Hp. apply save_results_other; intros ->; apply Hp;
      rewrite !elem_of_cons; tauto.
  - rewrite save_results_eq, !dom_insert_L. apply set_eq. intros p.
    rewrite !elem_of_union, !elem_of_singleton. tauto.
Qed.

(** ** The whole job *)

Lemma create_sample_data_1000 (g : rng) :
  ∃ df g', create_sample_data (PyInt 1000) g = Ok (df, g')
           ∧ length df = 1000%nat ∧ Forall in_bounds df.
Proof.
  unfold create_sample_data. simpl range.
  destruct (comprehension_spec (Z.to_nat 1000) g) as (l & g' & -> & Hlen & Hall).
  destruct l as [|r l]; [simpl in Hlen; lia|].
  exists (r :: l), g'. split; [done|]. split; [lia|done].
Qed.

Lemma stats_total_dept (df : list Row.t) :
  total_count DeptStats.employee_count (dept_stats df) = Z.of_nat (length df).
Proof.
  apply (total_count_partition _ Row.department). intros k.
  rewrite dept_stats_lookup. unfold group_size, group_rows.
  by destruct (filter _ df).
Qed.

Lemma stats_total_age (df : list Row.t) :
  total_count AgeStats.count (age_stats df) = Z.of_nat (length df).
Proof.
  apply (total_count_partition _ band_of). intros k.
  rewrite age_stats_lookup. unfold group_size, group_rows.
  by destruct (filter _ df).
Qed.

(** ** The job with its engine *)

Lemma logged_errors_app (t1 t2 : list event) :
  logged_errors (t1 ++ t2) = logged_errors t1 ++ logged_errors t2.
Proof. apply omap_app. Qed.

Lemma logged_errors_stage (log : list log_entry) : logged_errors (Stage <$> log) = [].
Proof. induction log as [|entry log IH]; [done|]. exact IH. Qed.

Lemma emit_stages (log : list log_entry) (w : world) :
  foldl (λ w entry, emit (Stage entry) w) w log
  = mk_world (session w) (sink w) (trace w ++ (Stage <$> log)).
Proof.
  revert w. induction log as [|entry log IH]; intros w.
  - simpl. rewrite app_nil_r. by destruct w.
  - cbn [foldl]. rewrite IH. unfold emit. cbn [session sink trace].
    by rewrite <- app_assoc.
Qed.

Lemma sink_keeps_session_and_errors (e : engine) (rows : list Feat.t)
    (dstats : gmap string DeptStats.t) (astats : gmap string AgeStats.t) (w : world) :
  ∃ w' r, save_results_io e rows dstats astats w = (w', r)
    ∧ session w' = session w
    ∧ logged_errors (trace w') = logged_errors (trace w).
Proof.
  unfold save_results_io, write_parquet.
  destruct (makedirs_error e) as [ex0|]; [by eexists _, _|].
  destruct (write_error e processed_path) as [[ex1 rem1]|]; [by eexists _, _|].
  destruct (write_error e dept_stats_path) as [[ex2 rem2]|].
  { eexists _, _. split; [reflexivity|]. cbn [session sink trace emit].
    split; [done|]. by rewrite logged_errors_app, app_nil_r. }
  destruct (write_error e age_stats_path) as [[ex3 rem3]|].
  { eexists _, _. split; [reflexivity|]. cbn [session sink trace emit].
    split; [done|]. by rewrite !logged_errors_app, !app_nil_r. }
  eexists _, _. split; [reflexivity|]. cbn [session sink trace emit].
  split; [done|]. by rewrite !logged_errors_app, !app_nil_r.
Qed.

(** X15.  [save_results] writes the three tables in a fixed order and
    stops at the first write that fails, without undoing the writes
    before it: if creating the directory fails nothing changes; if the
    department write fails the processed data is already in place and
    the age statistics path keeps what it held; only if all three writes
    succeed is the sink the one of the pure model.  The session and the
    paths other than the three are never touched. *)
Theorem save_results_stops_at_first_failure (e : engine) (rows : list Feat.t)
    (dstats : gmap string DeptStats.t) (astats : gmap string AgeStats.t) (w : world) :
  ∃ w' r, save_results_io e rows dstats astats w = (w', r)
    ∧ session w' = session w
    ∧ logged_errors (trace w') = logged_errors (trace w)
    ∧ (∀ p, p ∉ [processed_path; dept_stats_path; age_stats_path] →
            sink w' !! p = sink w !! p)
    ∧ match makedirs_error e with
      | Some ex => r = Err ex ∧ w' = w
      | None =>
        match write_error e processed_path with
        | Some (ex, remains) =>
            r = Err ex ∧ sink w' !! processed_path = remains
            ∧ sink w' !! dept_stats_path = sink w !! dept_stats_path
            ∧ sink w' !! age_stats_path = sink w !! age_stats_path
        | None =>
          sink w' !! processed_path = Some (ProcessedData rows)
          ∧ match write_error e dept_stats_path with
            | Some (ex, remains) =>
                r = Err ex ∧ sink w' !! dept_stats_path = remains
                ∧ sink w' !! age_stats_path = sink w !! age_stats_path
            | None =>
              sink w' !! dept_stats_path = Some (DepartmentStats dstats)
              ∧ match write_error e age_stats_path with
                | Some (ex, remains) =>
                    r = Err ex ∧ sink w' !! age_stats_path = remains
                | None =>
                    r = Ok tt ∧ sink w' = save_results (sink w) rows dstats astats
                end
            end
        end
      end.
Proof.
  destruct paths_distinct as (H12 & H13 & H23).
  assert (∀ p : string, p ∉ [processed_path; dept_stats_path; age_stats_path] →
            p ≠ processed_path ∧ p ≠ dept_stats_path ∧ p ≠ age_stats_path) as Hout.
  { intros p Hp. repeat split; intros ->; apply Hp; rewrite !elem_of_cons; tauto. }
  unfold save_results_io, write_parquet.
  destruct (makedirs_error e) as [ex0|]; [by eexists _, _|].
  destruct (write_error e processed_path) as [[ex1 rem1]|].
  { eexists _, _. split; [reflexivity|]. cbn [session sink trace].
    split; [done|]. split; [done|]. split.
    - intros p (Hp & _ & _)%Hout. by rewrite lookup_partial_alter_ne.
    - split; [done|]. rewrite lookup_partial_alter_eq, !lookup_partial_alter_ne by done.
      done. }
  destruct (write_error e dept_stats_path) as [[ex2 rem2]|].
  { eexists _, _. split; [reflexivity|]. cbn [session sink trace emit].
    split; [done|]. split; [by rewrite logged_errors_app, app_nil_r|]. split.
    - intros p (Hp1 & Hp2 & _)%Hout.
      by rewrite lookup_partial_alter_ne, lookup_insert_ne.
    - rewrite lookup_partial_alter_ne, lookup_insert_eq by done.
      split; [done|]. split; [done|].
      rewrite lookup_partial_alter_eq, lookup_partial_alter_ne, lookup_insert_ne by done.
      done. }
  destruct (write_error e age_stats_path) as [[ex3 rem3]|].
  { eexists _, _. split; [reflexivity|]. cbn [session sink trace emit].
    split; [done|]. split; [by rewrite !logged_errors_app, !app_nil_r|]. split.
    - intros p (Hp1 & Hp2 & Hp3)%Hout.
      by rewrite lookup_partial_alter_ne, !lookup_insert_ne.
    - rewrite lookup_partial_alter_ne, lookup_insert_ne, lookup_insert_eq by done.
      split; [done|].
      rewrite lookup_partial_alter_ne, lookup_insert_eq by done.
      split; [done|]. split; [done|]. by rewrite lookup_partial_alter_eq. }
  eexists _, _. split; [reflexivity|]. cbn [session sink trace emit].
  split; [done|]. split; [by rewrite !logged_errors_app, !app_nil_r|]. split.
  - intros p (Hp1 & Hp2 & Hp3)%Hout. by rewrite !lookup_insert_ne.
  - rewrite !lookup_insert_ne, lookup_insert_eq by done.
    split; [done|]. rewrite lookup_insert_ne, lookup_insert_eq by done.
    done.
Qed.

Lemma save_results_io_ok (e : engine) (rows : list Feat.t)
    (dstats : gmap string DeptStats.t) (astats : gmap string AgeStats.t) (w : world) :
  sink_ok e →
  save_results_io e rows dstats astats w
  = (mk_world (session w) (save_results (sink w) rows dstats astats)
       (trace w ++ [Info ("Saved processed data to: " +:+ processed_path);
                    Info ("Saved department stats to: " +:+ dept_stats_path);
                    Info ("Saved age stats to: " +:+ age_stats_path)]), Ok tt).
Proof.
  intros (H0 & H1 & H2 & H3). unfold save_results_io, write_parquet.
  rewrite H0, H1, H2, H3. unfold emit. cbn [session sink trace].
  by rewrite <- !app_assoc.
Qed.

Lemma save_results_io_result (e : engine) (rows : list Feat.t)
    (dstats : gmap string DeptStats.t) (astats : gmap string AgeStats.t) (w : world) :
  (save_results_io e rows dstats astats w).2 = Ok tt ↔ sink_ok e.
Proof.
  split; [|intros H; by rewrite save_results_io_ok].
  unfold save_results_io, write_parquet, sink_ok.
  destruct (makedirs_error e); [done|].
  destruct (write_error e processed_path) as [[??]|]; [done|].
  destruct (write_error e dept_stats_path) as [[??]|]; [done|].
  destruct (write_error e age_stats_path) as [[??]|]; [done|].
  done.
Qed.

Lemma job_body_cases (e : engine) (g : rng) (w : world) :
  ∃ w1 bound r, job_body e g w = (w1, bound, r)
    ∧ logged_errors (trace w1) = logged_errors (trace w)
    ∧ match getOrCreate_error e with
      | Some ex => r = Err ex ∧ bound = false ∧ w1 = w
      | None =>
        match conf_set_error e with
        | Some ex => r = Err ex ∧ bound = false ∧ is_Some (session w1)
                     ∧ sink w1 = sink w ∧ trace w1 = trace w
        | None => bound = true ∧ (r = Ok tt ↔ sink_ok e)
        end
      end.
Proof.
  unfold job_body, create_spark_session.
  destruct (getOrCreate_error e) as [ex|]; [by eexists _, _, _|].
  destruct (conf_set_error e) as [ex|]; [by eexists _, _, _|].
  destruct (create_sample_data_1000 g) as (df & g' & -> & _ & _).
  unfold apply_rdd_transformations. rewrite dept_avg_salary_ok, age_group_stats_ok.
  cbn [mbind result_bind mret result_ret apply_dataframe_transformations].
  rewrite emit_stages.
  match goal with
  | |- context [save_results_io e ?rows ?d ?a ?w0] =>
      pose proof (save_results_io_result e rows d a w0) as Hres;
      destruct (sink_keeps_session_and_errors e rows d a w0)
        as (w4 & r4 & E4 & _ & Herr)
  end.
  rewrite E4 in Hres |- *. cbn [snd] in Hres.
  assert (logged_errors (trace w4) = logged_errors (trace w)) as Ht.
  { rewrite Herr. cbn [trace emit session sink].
    by rewrite !logged_errors_app, logged_errors_stage, !app_nil_r. }
  destruct r4 as [[]|ex].
  - eexists _, _, _. split; [reflexivity|]. cbn [trace emit].
    split; [by rewrite !logged_errors_app, Ht, !app_nil_r|]. by split.
  - eexists _, _, _. split; [reflexivity|]. split; [done|]. split; [done|].
    rewrite <- Hres. split; intros; done.
Qed.

(** X16.  [main] never swallows an exception and releases the session it
    holds.  What it returns is how the body ended, and the error is
    logged once, after everything else but the stop; it succeeds exactly
    when no engine call raises.  When [create_spark_session] returned,
    the session is stopped on every path, as the last thing logged.
    When [getOrCreate] raises nothing is stopped or written; when
    [spark.conf.set] raises after [getOrCreate], [spark] is not bound in
    [main] and the session just made is left running. *)
Theorem main_reraises_and_stops_session (e : engine) (g : rng) (w : world) :
  ∃ w' r, main_io e g w = (w', r)
    ∧ logged_errors (trace w')
      = logged_errors (trace w) ++ match r with
                                   | Err ex => [ex]
                                   | Ok _ => []
                                   end
    ∧ (r = Ok tt ↔ engine_ok e)
    ∧ match getOrCreate_error e, conf_set_error e with
      | Some ex, _ =>
          r = Err ex ∧ session w' = session w ∧ sink w' = sink w
          ∧ last (trace w') = Some (Error ex)
      | None, Some ex =>
          r = Err ex ∧ is_Some (session w') ∧ sink w' = sink w
          ∧ last (trace w') = Some (Error ex)
      | None, None =>
          session w' = None ∧ last (trace w') = Some (Info "Spark session stopped")
      end.
Proof.
  unfold main_io, engine_ok.
  destruct (job_body_cases e g (emit (Info "Starting Simple PySpark Job...") w))
    as (w1 & bound & r & -> & Herr & Hcase).
  cbn [emit trace] in Herr. rewrite logged_errors_app, app_nil_r in Herr.
  destruct (getOrCreate_error e) as [ex|].
  { destruct Hcase as (-> & -> & ->). eexists _, _. split; [reflexivity|].
    cbn [emit trace session sink]. rewrite !logged_errors_app, app_nil_r.
    split; [done|]. split; [split; [done|by intros [? _]]|].
    split; [done|]. split; [done|]. split; [done|]. by rewrite last_snoc. }
  destruct (conf_set_error e) as [ex|].
  { destruct Hcase as (-> & -> & Hs & Hsink & Ht). eexists _, _. split; [reflexivity|].
    cbn [emit trace session sink]. rewrite logged_errors_app, Herr.
    split; [done|]. split; [split; [done|by intros (_ & ? & _)]|].
    split; [done|]. split; [done|]. split; [done|]. by rewrite last_snoc. }
  destruct Hcase as (-> & Hok). eexists _, _. split; [reflexivity|].
  split.
  { destruct r as [[]|ex]; cbn [emit stop trace session sink];
      rewrite !logged_errors_app, ?Herr, ?app_nil_r; done. }
  split.
  { rewrite Hok. unfold sink_ok. tauto. }
  destruct r; cbn [emit stop trace session sink]; by rewrite last_snoc.
Qed.

(** X17.  With an engine none of whose calls raises, [main] does what
    the pure model says: it returns normally, the sink is the one the
    pure [main] computes from the same source, the session is stopped,
    and the trace is, in this order: the start line, the session line, the
    lines of the key-value path, the three save lines, the completion
    line, the sample header, the five first processed rows, and the stop
    line. *)
Theorem main_without_faults (e : engine) (g : rng) (w : world) :
  engine_ok e →
  ∃ w' df g' log kv,
    main_io e g w = (w', Ok tt)
    ∧ create_sample_data (PyInt 1000) g = Ok (df, g')
    ∧ apply_rdd_transformations df = Ok (log, kv)
    ∧ main g (sink w) = Ok (sink w')
    ∧ session w' = None
    ∧ trace w'
      = trace w
        ++ [Info "Starting Simple PySpark Job...";
            Info "Spark session created successfully"]
        ++ (Stage <$> log)
        ++ [Info "Saved processed data to: /opt/ml/code/data/output/processed_data.parquet";
            Info "Saved department stats to: /opt/ml/code/data/output/department_stats.parquet";
            Info "Saved age stats to: /opt/ml/code/data/output/age_stats.parquet";
            Info "PySpark job completed successfully!";
            Info "Sample of processed data:";
            Shown (take 5 (df_with_features df));
            Info "Spark session stopped"]
    ∧ length (take 5 (df_with_features df)) = 5%nat.
Proof.
  intros (H1 & H2 & Hsink).
  destruct (create_sample_data_1000 g) as (df & g' & Hdf & Hlen & _).
  assert (∃ log kv, apply_rdd_transformations df = Ok (log, kv)) as (log & kv & Hrdd).
  { unfold apply_rdd_transformations.
    rewrite dept_avg_salary_ok, age_group_stats_ok. by eexists _, _. }
  exists (main_io e g w).1, df, g', log, kv.
  unfold main_io, job_body, create_spark_session, main, run_stages.
  rewrite H1, H2, Hdf, Hrdd.
  cbn [mbind result_bind mret result_ret apply_dataframe_transformations].
  rewrite emit_stages, save_results_io_ok by exact Hsink.
  split; [reflexivity|]. split; [reflexivity|].
  split; [reflexivity|]. cbn [emit stop trace session sink fst].
  split; [reflexivity|]. split; [reflexivity|]. split.
  - rewrite <- !app_assoc. reflexivity.
  - rewrite length_take. unfold df_with_features. rewrite length_fmap. lia.
Qed.

Lemma main_without_faults_witness :
  ∃ w' df g' log kv,
    main_io no_fault rng0 world0 = (w', Ok tt)
    ∧ create_sample_data (PyInt 1000) rng0 = Ok (df, g')
    ∧ apply_rdd_transformations df = Ok (log, kv)
    ∧ main rng0 (sink world0) = Ok (sink w')
    ∧ session w' = None
    ∧ trace w'
      = trace world0
        ++ [Info "Starting Simple PySpark Job...";
            Info "Spark session created successfully"]
        ++ (Stage <$> log)
        ++ [Info "Saved processed data to: /opt/ml/code/data/output/processed_data.parquet";
            Info "Saved department stats to: /opt/ml/code/data/output/department_stats.parquet";
            Info "Saved age stats to: /opt/ml/code/data/output/age_stats.parquet";
            Info "PySpark job completed successfully!";
            Info "Sample of processed data:";
            Shown (take 5 (df_with_features df));
            Info "Spark session stopped"]
    ∧ length (take 5 (df_with_features df)) = 5%nat.
Proof. apply (main_without_faults no_fault rng0 world0). by repeat split. Defined.

(** ** Every entry is the sum over the count *)

(** X18.  Each entry of a result is computed from the rows of its key
    and from them alone.  On a data set of at most [2^53] rows whose
    salaries and whose ages, in absolute value, add up to at most [2^53]
    each, so that [avg] adds without rounding: for a department with
    rows [g], the key-value average is the sum of their salaries over
    their number, and the tabular row has their number as
    [employee_count] and the sums of their salaries and of their ages
    over it as averages; likewise by age band.  A key without rows has
    no entry. *)
Theorem entries_are_sums_over_counts (df : list Row.t) (k : string) :
  Z.of_nat (length df) <= 2 ^ 53 →
  abs_total Row.salary df <= 2 ^ 53 →
  abs_total Row.age df <= 2 ^ 53 →
  ∃ d a, dept_avg_salary df = Ok d ∧ age_group_stats df = Ok a
    ∧ match filter (λ row, Row.department row = k) df with
      | [] => d !! k = None ∧ dept_stats df !! k = None
      | (_ :: _) as g =>
          let n := Z.of_nat (length g) in
          d !! k = Some (inject_Z (sum_Z (Row.salary <$> g)) / inject_Z n)%Q
          ∧ dept_stats df !! k
            = Some (DeptStats.mk n
                      (Some (inject_Z (sum_Z (Row.salary <$> g)) / inject_Z n)%Q)
                      (Some (inject_Z (sum_Z (Row.age <$> g)) / inject_Z n)%Q))
      end
    ∧ match filter (λ row, age_band (Row.age row) = k) df with
      | [] => a !! k = None ∧ age_stats df !! k = None
      | (_ :: _) as g =>
          let n := Z.of_nat (length g) in
          a !! k = Some ((inject_Z (sum_Z (Row.salary <$> g)) / inject_Z n)%Q, n)
          ∧ age_stats df !! k
            = Some (AgeStats.mk n
                      (Some (inject_Z (sum_Z (Row.salary <$> g)) / inject_Z n)%Q))
      end.
Proof.
  intros Hlen Hsal Hage.
  eexists _, _. split; [apply dept_avg_salary_ok|]. split; [apply age_group_stats_ok|].
  rewrite !lookup_fmap, dept_sum_count_lookup, age_sum_count_lookup,
    dept_stats_lookup, age_stats_lookup.
  change (filter (λ row, Row.department row = k) df) with (group_rows Row.department k df).
  change (filter (λ row, age_band (Row.age row) = k) df) with (group_rows band_of k df).
  split.
  - destruct (group_rows_exact Row.salary Row.department k df Hlen Hsal) as [H1 H2].
    destruct (group_rows_exact Row.age Row.department k df Hlen Hage) as [_ H3].
    destruct (group_rows Row.department k df) as [|r g] eqn:E; [done|].
    cbn [group_sum_count nonempty fmap option_fmap option_map]. cbv zeta.
    split; [done|]. f_equal. f_equal; by apply sql_avg_exact.
  - destruct (group_rows_exact Row.salary band_of k df Hlen Hsal) as [H1 H2].
    destruct (group_rows band_of k df) as [|r g] eqn:E; [done|].
    cbn [group_sum_count nonempty fmap option_fmap option_map]. cbv zeta.
    split; [done|]. f_equal. f_equal. by apply sql_avg_exact.
Qed.

Lemma entries_are_sums_over_counts_witness :
  ∃ d a, dept_avg_salary example_df = Ok d ∧ age_group_stats example_df = Ok a
    ∧ (d !! "Eng" = Some (inject_Z 100000 / inject_Z 2)%Q
       ∧ dept_stats example_df !! "Eng"
         = Some (DeptStats.mk 2 (Some (inject_Z 100000 / inject_Z 2)%Q)
                   (Some (inject_Z 60 / inject_Z 2)%Q)))
    ∧ a !! "Eng" = None ∧ age_stats example_df !! "Eng" = None.
Proof.
  apply (entries_are_sums_over_counts example_df "Eng"); by vm_compute.
Defined.

(** ** The job with an engine that does not raise *)

(** X14.  With an engine none of whose calls raises, the job, whatever
    the random source and whatever the sink held, returns normally and
    leaves three tables at the three output paths: 1000 processed rows
    whose original columns are within the generator's bounds, department
    statistics whose counts add up to 1000, and age statistics whose
    counts add up to 1000; no other path of the sink changes. *)
Theorem main_saves_three_tables (e : engine) (g : rng) (w : world) :
  engine_ok e →
  ∃ w' rows dstats astats,
    main_io e g w = (w', Ok tt)
    ∧ sink w' !! processed_path = Some (ProcessedData rows)
    ∧ sink w' !! dept_stats_path = Some (DepartmentStats dstats)
    ∧ sink w' !! age_stats_path = Some (AgeGroupStats astats)
    ∧ length rows = 1000%nat
    ∧ Forall (λ row, in_bounds (original_columns row)) rows
    ∧ total_count DeptStats.employee_count dstats = 1000
    ∧ total_count AgeStats.count astats = 1000
    ∧ (∀ p, p ∉ [processed_path; dept_stats_path; age_stats_path] →
            sink w' !! p = sink w !! p).
Proof.
  intros (H1 & H2 & Hsink).
  destruct (create_sample_data_1000 g) as (df & g' & Hdf & Hlen & Hall).
  exists (main_io e g w).1, (df_with_features df), (dept_stats df), (age_stats df).
  unfold main_io, job_body, create_spark_session, apply_rdd_transformations.
  rewrite H1, H2, Hdf, dept_avg_salary_ok, age_group_stats_ok.
  cbn [mbind result_bind mret result_ret apply_dataframe_transformations].
  rewrite emit_stages, save_results_io_ok by exact Hsink.
  split; [reflexivity|]. cbn [emit stop trace session sink fst].
  destruct (save_results_lookup (sink w) (df_with_features df) (dept_stats df) (age_stats df))
    as (L1 & L2 & L3).
  split; [exact L1|]. split; [exact L2|]. split; [exact L3|].
  split; [unfold df_with_features; by rewrite length_fmap|].
  split.
  { unfold df_with_features. apply Forall_fmap.
    eapply Forall_impl; [exact Hall|]. by intros [i n a s d]. }
  split; [rewrite stats_total_dept; lia|].
  split; [rewrite stats_total_age; lia|].
  intros p Hp. apply save_results_other; intros ->; apply Hp;
    rewrite !elem_of_cons; tauto.
Qed.

Lemma main_saves_three_tables_witness :
  ∃ w' rows dstats astats,
    main_io no_fault rng0 world0 = (w', Ok tt)
    ∧ sink w' !! processed_path = Some (ProcessedData rows)
    ∧ sink w' !! dept_stats_path = Some (DepartmentStats dstats)
    ∧ sink w' !! age_stats_path = Some (AgeGroupStats astats)
    ∧ length rows = 1000%nat
    ∧ Forall (λ row, in_bounds (original_columns row)) rows
    ∧ total_count DeptStats.employee_count dstats = 1000
    ∧ total_count AgeStats.count astats = 1000
    ∧ (∀ p, p ∉ [processed_path; dept_stats_path; age_stats_path] →
            sink w' !! p = sink world0 !! p).
Proof. apply (main_saves_three_tables no_fault rng0 world0). by repeat split. Defined.

(** ** Every execution of avg *)

Lemma abs_sum_le (l : list Z) : Z.abs (sum_Z l) <= sum_Z (Z.abs <$> l).
Proof.
  induction l as [|x l IH]; [done|].
  rewrite fmap_cons, !sum_Z_cons. lia.
Qed.

Lemma double_sum_plan_rows (p : plan Z) :
  sum_Z (Z.abs <$> plan_rows p) <= 2 ^ 53 →
  double_sum_plan p = sum_Z (plan_rows p).
Proof.
  induction p as [rows|l IHl r IHr]; intros H.
  - by apply double_sum_exact.
  - cbn [plan_rows double_sum_plan] in *.
    rewrite fmap_app, sum_Z_app in H. rewrite sum_Z_app.
    pose proof (abs_sum_le (plan_rows l)). pose proof (abs_sum_le (plan_rows r)).
    assert (0 <= sum_Z (Z.abs <$> plan_rows l)) by lia.
    assert (0 <= sum_Z (Z.abs <$> plan_rows r)) by lia.
    rewrite IHl, IHr by lia. apply round53_exact. lia.
Qed.

(** X19.  Where the values, in absolute value, add up to at most [2^53],
    every execution of the sum of [avg], however the values are ordered
    and split into partitions and in whatever order the partial sums
    are added, gives the sum of the integers, which is what the
    execution with one partition gives. *)
Theorem avg_sum_exact_in_every_execution (l : list Z) (p : plan Z) :
  plan_rows p ≡ₚ l →
  sum_Z (Z.abs <$> l) <= 2 ^ 53 →
  double_sum_plan p = sum_Z l ∧ double_sum l = sum_Z l.
Proof.
  intros Hp H. split; [|by apply double_sum_exact].
  rewrite double_sum_plan_rows.
  - apply sum_Z_perm, Hp.
  - erewrite sum_Z_perm; [exact H|]. by rewrite Hp.
Qed.

Lemma avg_sum_exact_in_every_execution_witness :
  double_sum_plan (Merge (Partition [80000]) (Merge (Partition []) (Partition [60000; 40000])))
  = sum_Z [40000; 60000; 80000]
  ∧ double_sum [40000; 60000; 80000] = sum_Z [40000; 60000; 80000].
Proof.
  apply (avg_sum_exact_in_every_execution [40000; 60000; 80000]
           (Merge (Partition [80000]) (Merge (Partition []) (Partition [60000; 40000])))).
  - apply (bool_decide_unpack _). vm_compute. exact I.
  - by vm_compute.
Defined.

(** ** The two paths on generated data *)

Lemma abs_total_in_bounds (df : list Row.t) :
  Forall in_bounds df →
  abs_total Row.salary df <= 150000 * Z.of_nat (length df)
  ∧ abs_total Row.age df <= 65 * Z.of_nat (length df).
Proof.
  unfold abs_total. induction 1 as [|r df (_ & Ha & Hs & _) _ IH]; [done|].
  rewrite !fmap_cons, !sum_Z_cons. simpl length. lia.
Qed.

(** X20.  On the data the job generates the two paths agree.  For every
    row count from 1 to [2^53 / 150000] (more than [6 * 10^10]; the job
    asks for 1000) and every random source, the generator returns a
    data set, the key-value path returns on it, and for every key the
    average salary of the key-value path is the one of the tabular
    path, by department and by age band. *)
Theorem paths_agree_on_generated_data (N : Z) (g : rng) :
  1 <= N <= exact_rows →
  ∃ df g' d a,
    create_sample_data (PyInt N) g = Ok (df, g')
    ∧ dept_avg_salary df = Ok d ∧ age_group_stats df = Ok a
    ∧ (∀ k, d !! k = dept_stats df !! k ≫= DeptStats.avg_salary)
    ∧ (∀ k, fst <$> a !! k = age_stats df !! k ≫= AgeStats.avg_salary).
Proof.
  intros HN. unfold create_sample_data. simpl range.
  destruct (comprehension_spec (Z.to_nat N) g) as (l & g' & -> & Hlen & Hall).
  destruct l as [|r l]; [simpl in Hlen; lia|].
  exists (r :: l), g'. eexists _, _. split; [done|].
  split; [apply dept_avg_salary_ok|]. split; [apply age_group_stats_ok|].
  destruct (abs_total_in_bounds (r :: l) Hall) as [Hs _].
  assert (exact_rows = 60047995031) as Hrows by reflexivity.
  assert ((2 ^ 53 : Z) = 9007199254740992) as Hpow by reflexivity.
  apply avg_lookup_agree; rewrite Hpow; lia.
Qed.

Lemma paths_agree_on_generated_data_witness :
  ∃ df g' d a,
    create_sample_data (PyInt 1000) rng0 = Ok (df, g')
    ∧ dept_avg_salary df = Ok d ∧ age_group_stats df = Ok a
    ∧ (∀ k, d !! k = dept_stats df !! k ≫= DeptStats.avg_salary)
    ∧ (∀ k, fst <$> a !! k = age_stats df !! k ≫= AgeStats.avg_salary).
Proof.
  apply (paths_agree_on_generated_data 1000 rng0). by vm_compute.
Defined.
